(** * Crawl orchestration of [app.py]: embedding and verified properties

    The FastAPI application in [app.py] exposes [POST /crawl].  The
    embedding below follows the file top to bottom: the bearer check
    ([verify_api_key]), the request and result models ([CrawlRequest],
    [CrawlResult]), the orchestration ([crawl_url]) and the endpoint
    ([crawl_endpoint]).  The libraries the file calls (FastAPI's [HTTPBearer],
    pydantic's [HttpUrl], crawl4ai's [AsyncWebCrawler]) are interfaces: type
    classes whose fields are what [app.py] uses of them. *)

From Stdlib Require Import ZArith String Ascii List Lia Bool.
From stdpp Require Import base option list strings gmap.

#[local] Set Warnings "-clear-no-such-hyp,-register-all".

(** ** Python values shared by the whole file *)

(** A Python exception as far as [app.py] looks at it: [str(e)]. *)
Record Exception := { str_exc : string }.

(** [fastapi.HTTPException(status_code, detail, headers)]. *)
Record HTTPException := {
  status_code : Z;
  detail : string;
  headers : list (string * string)
}.

(** [fastapi.security.HTTPAuthorizationCredentials]. *)
Record HTTPAuthorizationCredentials := {
  scheme : string;
  credentials : string
}.

(** ** crawl4ai configuration objects built by [crawl_url] *)

Inductive CacheMode := ENABLED | DISABLED | READ_ONLY | WRITE_ONLY | BYPASS.

Module BFSDeepCrawlStrategy.
Record t := { max_depth : Z; include_external : bool }.
End BFSDeepCrawlStrategy.

Record CrawlerRunConfig := {
  magic : bool;
  cache_mode : CacheMode;
  deep_crawl_strategy : option BFSDeepCrawlStrategy.t;
  verbose : bool
}.

(** ** The models of [app.py] *)

Module CrawlRequest.
(** [url] holds the validated [HttpUrl] in the form [str(request.url)]
    returns; [max_depth] is a Python [int], unbounded and unconstrained. *)
Record t := { url : string; max_depth : Z }.
End CrawlRequest.

Module CrawlResult.
Record t := { url : string; markdown : string }.
End CrawlResult.

(** The return annotation [Union[List[CrawlResult], CrawlResult]]. *)
Inductive CrawlResponse :=
  | OneResult (r : CrawlResult.t)
  | ResultList (rs : list CrawlResult.t).

(** ** The HTTP request as the route receives it *)

(** A JSON value as [json.loads] returns it.  A number written with a
    fraction or an exponent is kept as its literal. *)
Inductive JSON :=
  | JNull
  | JBool (b : bool)
  | JInt (z : Z)
  | JFloat (literal : string)
  | JString (s : string)
  | JArray (items : list JSON)
  | JObject (fields : list (string * JSON)).

(** The value of a key of a JSON object; of a repeated key the last
    occurrence counts, as in the [dict] that [json.loads] builds. *)
Fixpoint json_get (key : string) (fields : list (string * JSON)) : option JSON :=
  match fields with
  | [] => None
  | (k, v) :: rest =>
      match json_get key rest with
      | Some v' => Some v'
      | None => if bool_decide (k = key) then Some v else None
      end
  end.

(** What reading the body of the request gives: a JSON document that does
    not parse, a document on which the parser raises another error (an
    integer literal beyond Python's digit limit), no JSON at all (an empty
    body, another content type), or a JSON value. *)
Inductive Body :=
  | BodyMalformed
  | BodyUnreadable
  | BodyNotJSON
  | BodyJSON (j : JSON).

(** The [Authorization] header, split at its first space into a scheme and
    credentials. *)
Inductive Authorization :=
  | NoAuthorization
  | AuthorizationHeader (scheme credentials : string).

(** The response of the route: the value returned by the endpoint, an
    [HTTPException] rendered by FastAPI with its status, detail and headers,
    the 422 of a request that fails validation, or the 400 of a body that
    cannot be read. *)
Inductive HTTPResponse :=
  | Response200 (body : CrawlResponse)
  | ResponseError (e : HTTPException)
  | Response422
  | Response400.

(** ** Collaborator interfaces *)

(** What [app.py] takes from FastAPI and pydantic.  [HttpUrl_validate s] is
    [Some s'] when the string [s] passes [HttpUrl] validation, [s'] being
    its [str()] form.  [int_lax v] is pydantic's conversion to [int] of a
    JSON value that is not an integer ([1.0], ["5"]), [None] when it refuses
    it.  [HTTPBearer_error] is the exception [HTTPBearer()] raises by itself
    when the request carries no credentials, [HTTPBearer_scheme_error] the
    one it raises for credentials of another scheme; both are raised before
    [verify_api_key] is entered. *)
Class Framework := {
  HttpUrl_validate : string → option string;
  int_lax : JSON → option Z;
  HTTPBearer_error : HTTPException;
  HTTPBearer_scheme_error : HTTPException
}.

(** What [app.py] takes from crawl4ai.  [start] is the exception raised, if
    any, by [AsyncWebCrawler()] and entering its [async with] block, [close]
    the one raised on leaving it.  [arun url config] gives the URLs the
    crawler fetches, in order, and either the exception it raises or the
    results it returns.  Of a result [app.py] reads [result.url] and
    [str(result._markdown)]; [result_read_error] is the exception raised, if
    any, by reading them and building the [CrawlResult].  [result_success]
    is crawl4ai's [result.success], which is [False] for a page that could
    not be fetched and which [app.py] never reads. *)
Class AsyncWebCrawler := {
  CrawlerResult : Type;
  result_url : CrawlerResult → string;
  result_markdown_str : CrawlerResult → string;
  result_success : CrawlerResult → bool;
  result_read_error : CrawlerResult → option Exception;
  start : option Exception;
  arun : string → CrawlerRunConfig → list string * (Exception + list CrawlerResult);
  close : option Exception
}.

(** ** Effects: a trace of collaborator invocations, and HTTP errors *)

Inductive Event :=
  | ArunCall (url : string) (config : CrawlerRunConfig)
  | FetchCall (url : string).

Definition M (A : Type) : Type :=
  list Event → (HTTPException + A) * list Event.

Definition raise {A} (e : HTTPException) : M A := λ tr, (inl e, tr).

#[export] Instance M_ret : MRet M := λ A a tr, (inr a, tr).

#[export] Instance M_bind : MBind M := λ A B k m tr,
  match m tr with
  | (inl e, tr') => (inl e, tr')
  | (inr a, tr') => k a tr'
  end.

(** A dependency or helper that either raises or returns. *)
Definition lift {A} (r : HTTPException + A) : M A :=
  match r with inl e => raise e | inr a => mret a end.

(** [await crawler.arun(url, config=config)]: the call is recorded with its
    arguments, followed by the fetches the crawler performs; the outcome is
    handed back for the [try]/[except] of the caller. *)
Definition call_arun `{AsyncWebCrawler} (url : string) (config : CrawlerRunConfig)
  : M (Exception + list CrawlerResult) :=
  λ tr, let '(fetched, outcome) := arun url config in
        (inr outcome, tr ++ ArunCall url config :: (FetchCall <$> fetched)).

(** ** [app.py], lines 13-25 *)

Definition getenv (environ : gmap string string) (key dflt : string) : string :=
  default dflt (environ !! key).

Definition verify_api_key (environ : gmap string string)
    (creds : HTTPAuthorizationCredentials) : HTTPException + string :=
  let api_key := getenv environ "API_KEY" "admin" in
  if bool_decide (credentials creds ≠ api_key) then
    inl {| status_code := 401;
           detail := "Invalid API key";
           headers := [("WWW-Authenticate", "Bearer")] |}
  else inr (credentials creds).

Definition lower_ascii (c : ascii) : ascii :=
  let n := nat_of_ascii c in
  if (65 <=? n) && (n <=? 90) then ascii_of_nat (n + 32) else c.

Fixpoint lower (s : string) : string :=
  match s with
  | EmptyString => EmptyString
  | String c s' => String (lower_ascii c) (lower s')
  end.

(** [security = HTTPBearer()], first step: a header without scheme or
    without credentials counts as no credentials at all; credentials of a
    scheme other than [bearer], compared without regard to case, are
    refused; what is left is the token presented, if any. *)
Definition HTTPBearer_scheme `{Framework} (authorization : Authorization)
  : HTTPException + option string :=
  match authorization with
  | NoAuthorization => inr None
  | AuthorizationHeader scheme credentials =>
      if bool_decide (scheme = "") || bool_decide (credentials = "") then inr None
      else if bool_decide (lower scheme ≠ "bearer") then inl HTTPBearer_scheme_error
      else inr (Some credentials)
  end.

(** [security = HTTPBearer()], second step: [presented] is the token of the
    [Authorization: Bearer] header, [None] when there is none; an empty
    token is no token. *)
Definition security `{Framework} (presented : option string)
  : HTTPException + HTTPAuthorizationCredentials :=
  match presented with
  | None => inl HTTPBearer_error
  | Some token =>
      if bool_decide (token = "") then inl HTTPBearer_error
      else inr {| scheme := "Bearer"; credentials := token |}
  end.

(** [Depends(verify_api_key)] with its own dependency [Security(security)]. *)
Definition authenticate `{Framework} (environ : gmap string string)
    (presented : option string) : HTTPException + string :=
  match security presented with
  | inl e => inl e
  | inr creds => verify_api_key environ creds
  end.



(** ** [app.py], lines 27-29: pydantic validation of the body *)

(** [url] is required and must be a string that is a valid [HttpUrl];
    [max_depth] defaults to 1, is taken as it is when it is an integer,
    whatever its sign and size, and is otherwise left to pydantic's
    conversion; [null] is not an [int].  Other keys are ignored. *)
Definition CrawlRequest_validate `{Framework} (j : JSON) : option CrawlRequest.t :=
  match j with
  | JObject fields =>
      match json_get "url" fields with
      | Some (JString s) =>
          match HttpUrl_validate s with
          | Some u =>
              let request d :=
                {| CrawlRequest.url := u; CrawlRequest.max_depth := d |} in
              match json_get "max_depth" fields with
              | None => Some (request 1%Z)
              | Some (JInt d) => Some (request d)
              | Some JNull => None
              | Some v => request <$> int_lax v
              end
          | None => None
          end
      | _ => None
      end
  | _ => None
  end.

(** ** [app.py], lines 35-52 *)

Definition crawl_config (max_depth : Z) : CrawlerRunConfig :=
  {| magic := true;
     cache_mode := BYPASS;
     deep_crawl_strategy :=
       if (0 <? max_depth)%Z
       then Some {| BFSDeepCrawlStrategy.max_depth := max_depth;
                    BFSDeepCrawlStrategy.include_external := false |}
       else None;
     verbose := true |}.

Definition to_CrawlResult `{AsyncWebCrawler} (result : CrawlerResult) : CrawlResult.t :=
  {| CrawlResult.url := result_url result;
     CrawlResult.markdown := result_markdown_str result |}.

(** The list comprehension of line 50: the results are converted in order;
    the first one that cannot be read raises. *)
Fixpoint collect `{AsyncWebCrawler} (results : list CrawlerResult)
  : Exception + list CrawlResult.t :=
  match results with
  | [] => inr []
  | result :: rest =>
      match result_read_error result with
      | Some e => inl e
      | None =>
          match collect rest with
          | inl e => inl e
          | inr converted => inr (to_CrawlResult result :: converted)
          end
      end
  end.

(** The body of the [try], lines 48-50.  When the crawler cannot be
    started nothing else runs.  Otherwise [arun] is called once and its
    results are converted; the crawler is closed on the way out, whether
    the block returned or raised, and an exception raised by closing it
    replaces the outcome of the block. *)
Definition with_crawler `{AsyncWebCrawler} (url : string) (config : CrawlerRunConfig)
  : M (Exception + list CrawlResult.t) :=
  match start with
  | Some e => mret (inl e)
  | None =>
      outcome ← call_arun url config ;
      let returned :=
        match outcome with
        | inl e => inl e
        | inr results => collect results
        end in
      mret (match close with Some e => inl e | None => returned end)
  end.

(** The ways the body of the [try] raises [e]: the crawler does not start;
    [arun] raises; a result cannot be read; or closing the crawler raises,
    whatever happened before. *)
Inductive crawler_raises `{AsyncWebCrawler} (url : string) (config : CrawlerRunConfig)
  : Exception → Prop :=
  | raises_on_start e :
      start = Some e → crawler_raises url config e
  | raises_in_arun e :
      start = None → (arun url config).2 = inl e → close = None →
      crawler_raises url config e
  | raises_on_read results e :
      start = None → (arun url config).2 = inr results →
      collect results = inl e → close = None →
      crawler_raises url config e
  | raises_on_close e :
      start = None → close = Some e → crawler_raises url config e.

Definition crawl_url `{AsyncWebCrawler} (url : string) (max_depth : Z) : M CrawlResponse :=
  let config := crawl_config max_depth in
  outcome ← with_crawler url config ;
  match outcome with
  | inr results => mret (ResultList results)
  | inl e =>
      raise {| status_code := 500;
               detail := "Crawling failed: " +:+ str_exc e;
               headers := [] |}
  end.

(** ** [app.py], lines 54-56 *)

(** [GET /]: a fixed description of the service; the handler takes no
    credentials and calls nothing. *)
Definition root : M (gmap string string) :=
  mret (<["message" := "Async Web Crawler API"]>
        (<["docs" := "/docs"]>
         (<["auth" := "Required - use Authorization: Bearer <API_KEY>"]> ∅))).

(** ** [app.py], lines 58-68 *)

(** The endpoint with its dependency, for a request whose body has been
    validated into [request]. *)
Definition crawl_endpoint `{Framework} `{AsyncWebCrawler}
    (environ : gmap string string) (presented : option string)
    (request : CrawlRequest.t) : M CrawlResponse :=
  creds ← lift (security presented) ;
  api_key ← lift (verify_api_key environ creds) ;
  crawl_url (CrawlRequest.url request) (CrawlRequest.max_depth request).

Definition respond (outcome : HTTPException + CrawlResponse) : HTTPResponse :=
  match outcome with
  | inl e => ResponseError e
  | inr response => Response200 response
  end.

(** The route [POST /crawl] as FastAPI runs it.  The body is read first: a
    document that does not parse is answered 422 and one the parser fails
    on 400, before the credentials are looked at.  Then the dependency is
    resolved, and its exception is the response.  Only then are the fields
    of the body validated, a failure being answered 422, and the endpoint
    is called. *)
Definition post_crawl `{Framework} `{AsyncWebCrawler}
    (environ : gmap string string) (authorization : Authorization) (body : Body)
  : list Event → HTTPResponse * list Event :=
  λ tr,
  match body with
  | BodyMalformed => (Response422, tr)
  | BodyUnreadable => (Response400, tr)
  | _ =>
      match HTTPBearer_scheme authorization with
      | inl e => (ResponseError e, tr)
      | inr presented =>
          match authenticate environ presented with
          | inl e => (ResponseError e, tr)
          | inr _ =>
              let validated :=
                match body with
                | BodyJSON j => CrawlRequest_validate j
                | _ => None
                end in
              match validated with
              | None => (Response422, tr)
              | Some request =>
                  let '(outcome, tr') :=
                    crawl_endpoint environ presented request tr in
                  (respond outcome, tr')
              end
          end
      end
  end.

(** ** Reading a trace *)

(** The crawler calls recorded in a trace, with their arguments, and the
    URLs fetched, both in order. *)
Definition arun_calls (tr : list Event) : list (string * CrawlerRunConfig) :=
  omap (λ ev, match ev with
              | ArunCall url config => Some (url, config)
              | FetchCall _ => None
              end) tr.

Definition fetch_calls (tr : list Event) : list string :=
  omap (λ ev, match ev with
              | ArunCall _ _ => None
              | FetchCall url => Some url
              end) tr.

(** ** The crawler behind [arun], as the specification describes it

    crawl4ai is not part of the repository; the definitions of this part
    follow the specification's sections 4.2 (TraversalPolicy), 4.3
    (CrawlOrchestrator) and 6 (the [fetch] and [toText] capabilities). *)

Module Traversal.

(** Modelled from the spec: URL normalization, which crawl4ai performs and
    the repository does not contain.  Section 4.2 compares URLs by scheme,
    host, path and query: the fragment, everything from the first [#], is
    dropped. *)
Fixpoint take_until (stop : ascii → bool) (s : string) : string :=
  match s with
  | EmptyString => EmptyString
  | String c s' => if stop c then EmptyString else String c (take_until stop s')
  end.

Definition is_hash (c : ascii) : bool := Ascii.eqb c "#".

Definition normalize (u : string) : string := take_until is_hash u.

Definition in_range (lo hi : nat) (c : ascii) : bool :=
  let n := nat_of_ascii c in (lo <=? n) && (n <=? hi).

Definition is_alpha (c : ascii) : bool := in_range 65 90 c || in_range 97 122 c.

Definition is_digit (c : ascii) : bool := in_range 48 57 c.

(** The characters of a URL scheme after its first letter. *)
Definition scheme_char (c : ascii) : bool :=
  is_alpha c || is_digit c || Ascii.eqb c "+" || Ascii.eqb c "-" || Ascii.eqb c ".".

(** What follows the [:] that ends a run of scheme characters, if the
    string starts with one. *)
Fixpoint after_colon (s : string) : option string :=
  match s with
  | EmptyString => None
  | String c s' =>
      if Ascii.eqb c ":" then Some s'
      else if scheme_char c then after_colon s' else None
  end.

(** A URL without its scheme: what follows [scheme:] when the string
    starts with a letter and a scheme, the string itself otherwise. *)
Definition hier_part (s : string) : string :=
  match s with
  | EmptyString => s
  | String c _ => if is_alpha c then default s (after_colon s) else s
  end.

Definition ends_authority (c : ascii) : bool :=
  Ascii.eqb c "/" || Ascii.eqb c "?" || Ascii.eqb c "#".

(** The authority of a URL: present only when [//] follows the scheme (or
    starts a URL without scheme), it runs to the next [/], [?] or [#]. *)
Definition authority (s : string) : option string :=
  match hier_part s with
  | String "/" (String "/" rest) => Some (take_until ends_authority rest)
  | _ => None
  end.

(** What follows the last occurrence of a character. *)
Fixpoint after_last (c0 : ascii) (s : string) : option string :=
  match s with
  | EmptyString => None
  | String c s' =>
      match after_last c0 s' with
      | Some rest => Some rest
      | None => if Ascii.eqb c c0 then Some s' else None
      end
  end.

(** An authority without its user information, which ends at the last [@]. *)
Definition drop_userinfo (a : string) : string := default a (after_last "@" a).

Fixpoint take_through (c0 : ascii) (s : string) : string :=
  match s with
  | EmptyString => EmptyString
  | String c s' =>
      if Ascii.eqb c c0 then String c EmptyString else String c (take_through c0 s')
  end.

(** A host without its port: a bracketed address runs to its [], any
    other host to the first [:]. *)
Definition drop_port (h : string) : string :=
  match h with
  | String "[" _ => take_through "]" h
  | _ => take_until (λ c, Ascii.eqb c ":") h
  end.

(** Modelled from the spec: the host of a URL (section 4.2, scope rule),
    which crawl4ai extracts and the repository does not contain.  It is
    read off the normalized URL, in lower case, and only a URL with an
    authority has one: a relative link, or a [mailto:] or [javascript:]
    link, has none. *)
Definition host_of (u : string) : option string :=
  (λ a, lower (drop_port (drop_userinfo a))) <$> authority (normalize u).

(** URLs of the usual form, [scheme://host] followed by nothing or by a
    path, a query or a fragment: the shape of their three parts. *)
Fixpoint all_chars (p : ascii → bool) (s : string) : bool :=
  match s with
  | EmptyString => true
  | String c s' => p c && all_chars p s'
  end.

Definition is_scheme (s : string) : bool :=
  match s with
  | EmptyString => false
  | String c s' => is_alpha c && all_chars scheme_char s'
  end.

Definition host_char (c : ascii) : bool :=
  negb (Ascii.eqb c "/" || Ascii.eqb c "?" || Ascii.eqb c "#" ||
        Ascii.eqb c "@" || Ascii.eqb c ":" || Ascii.eqb c "[").

Definition starts_path (rest : string) : bool :=
  match rest with
  | EmptyString => true
  | String c _ => ends_authority c
  end.

(** Modelled from the spec: the result of the [fetch] capability of
    section 1, [fetch(url) -> {finalUrl, html, links[], renderedText}]. *)
Record Page := {
  finalUrl : string;
  html : string;
  links : list string;
  renderedText : string
}.

(** Modelled from the spec: a VisitItem of section 3 together with the text
    of its page, the crawler's result for one visited URL. *)
Record Visited := {
  visit_url : string;
  visit_depth : nat;
  visit_text : string
}.

(** Breadth-first order of a result sequence (section 8): a result never
    precedes one of smaller depth. *)
Definition breadth_first (rs : list Visited) : Prop :=
  ∀ i j a b, rs !! i = Some a → rs !! j = Some b → i < j →
    visit_depth a ≤ visit_depth b.

(** Modelled from the spec: the frontier of section 4.2 while one depth
    level is visited: the URLs seen so far and the queue of the next
    level. *)
Record Frontier := {
  seen : gset string;
  queue : list string
}.

(** Modelled from the spec: the scope rule of section 4.2; with
    [include_external] unset a link is a candidate only if it has a host
    and this host equals the seed's. *)
Definition in_scope (include_external : bool) (seed : string) (c : string) : bool :=
  include_external ||
  match host_of c, host_of seed with
  | Some h, Some h' => bool_decide (h = h')
  | _, _ => false
  end.

(** Modelled from the spec: deduplication and enqueueing of section 4.2.  A
    link is normalized, dropped when out of scope or already seen, and
    otherwise appended to the queue of the next level: first discovery
    wins. *)
Definition discover_link (scope : string → bool) (st : Frontier) (link : string)
  : Frontier :=
  let c := normalize link in
  if scope c && negb (bool_decide (c ∈ seen st))
  then {| seen := {[c]} ∪ seen st; queue := queue st ++ [c] |}
  else st.

Definition discover (scope : string → bool) (page_links : list string)
    (st : Frontier) : Frontier :=
  foldl (discover_link scope) st page_links.

(** What a visit adds to a frontier [st], giving [st']: the URLs [new],
    appended to the queue in order, all unseen before, in scope and taken
    from [from]. *)
Definition fresh_for (scope : string → bool) (from : list string)
    (st st' : Frontier) (new : list string) : Prop :=
  queue st' = queue st ++ new ∧
  seen st' = list_to_set new ∪ seen st ∧
  NoDup new ∧
  ∀ x, x ∈ new → (x ∉ seen st) ∧ scope x = true ∧ x ∈ from.

(** Modelled from the spec: the failure of section 4.3, raised by the
    crawler when a page cannot be fetched. *)
Definition FetchFailure (u : string) : Exception :=
  {| str_exc := "could not fetch " +:+ u |}.

Section Crawler.

(** The two capabilities of section 1; [fetch u = None] is a failed
    fetch. *)
Variable fetch : string → option Page.
Variable toText : string → string.

(** The candidates a level offers to the next one: the normalized links
    of its pages, in order. *)
Definition offered (level : list string) : list string :=
  u ← level; match fetch u with
             | Some page => normalize <$> links page
             | None => []
             end.

(** The page at [u] links to [x]. *)
Definition links_to (u x : string) : Prop :=
  ∃ page, fetch u = Some page ∧ x ∈ normalize <$> links page.

(** Depth of discovery (glossary): a result is the seed at depth 0 or
    was linked from the page of a result one level above it. *)
Definition discovered (url : string) (rs : list Visited) (v : Visited) : Prop :=
  (visit_url v = normalize url ∧ visit_depth v = 0) ∨
  ∃ p page, p ∈ rs ∧ S (visit_depth p) = visit_depth v ∧
            fetch (visit_url p) = Some page ∧
            visit_url v ∈ normalize <$> links page.

(** First discovery wins (section 4.2): the seed comes first; any other
    result stands one level below the first page of the sequence that
    links to it, and after that page. *)
Definition first_discovery_wins (url : string) (rs : list Visited) : Prop :=
  ∀ i v, rs !! i = Some v →
    (i = 0 ∧ visit_url v = normalize url ∧ visit_depth v = 0) ∨
    ∃ k p, k < i ∧ rs !! k = Some p ∧
           links_to (visit_url p) (visit_url v) ∧
           visit_depth v = S (visit_depth p) ∧
           ∀ j q, j < k → rs !! j = Some q →
                  ¬ links_to (visit_url q) (visit_url v).

(** Modelled from the spec: one depth level of the breadth-first
    traversal of sections 4.2 and 4.3.  Every URL of the level is
    fetched in order; a failed fetch aborts the traversal; the links of
    a fetched page are offered to the next level when [expand] is set
    (the depth ceiling).  The first component is the list of fetch
    calls made. *)
Fixpoint visit_level (scope : string → bool) (depth : nat) (expand : bool)
    (level : list string) (st : Frontier)
  : list string * (Exception + list Visited * Frontier) :=
  match level with
  | [] => ([], inr ([], st))
  | u :: rest =>
      match fetch u with
      | None => ([u], inl (FetchFailure u))
      | Some page =>
          let st' := if expand then discover scope (links page) st else st in
          let '(fetched, r) := visit_level scope depth expand rest st' in
          (u :: fetched,
           match r with
           | inl e => inl e
           | inr (rs, st'') =>
               inr ({| visit_url := u; visit_depth := depth;
                       visit_text := toText (html page) |} :: rs, st'')
           end)
      end
  end.

(** Modelled from the spec: the breadth-first traversal of section 4.2:
    all items of depth [depth] before any of depth [depth + 1], for
    [budget] further levels. *)
Fixpoint bfs (scope : string → bool) (budget depth : nat)
    (level : list string) (seen_urls : gset string)
  : list string * (Exception + list Visited) :=
  match budget with
  | 0 =>
      let '(fetched, r) :=
        visit_level scope depth false level {| seen := seen_urls; queue := [] |} in
      (fetched, match r with inl e => inl e | inr (rs, _) => inr rs end)
  | S budget' =>
      let '(fetched, r) :=
        visit_level scope depth true level {| seen := seen_urls; queue := [] |} in
      match r with
      | inl e => (fetched, inl e)
      | inr (rs, st) =>
          let '(fetched', r') := bfs scope budget' (S depth) (queue st) (seen st) in
          (fetched ++ fetched',
           match r' with inl e => inl e | inr rs' => inr (rs ++ rs') end)
      end
  end.

(** Modelled from the spec: [arun] of crawl4ai's [AsyncWebCrawler].
    Without a deep-crawl strategy the sequence is the seed alone
    (section 4.2, [maxDepth == 0]); with one it is the breadth-first
    traversal bounded by the strategy's [max_depth]. *)
Definition spec_arun (url : string) (config : CrawlerRunConfig)
  : list string * (Exception + list Visited) :=
  let seed := normalize url in
  match deep_crawl_strategy config with
  | None => bfs (λ _, true) 0 0 [seed] {[seed]}
  | Some strategy =>
      bfs (in_scope (BFSDeepCrawlStrategy.include_external strategy) seed)
          (Z.to_nat (BFSDeepCrawlStrategy.max_depth strategy)) 0 [seed] {[seed]}
  end.

(** Modelled from the spec: the crawler as [app.py] sees it: the URL of a
    result is the URL of its VisitItem, its markdown the page's text.  The
    crawler of the specification starts and closes without error and
    signals a page that cannot be fetched by raising (section 4.3), so that
    every result it returns is a successful one. *)
Definition spec_crawler : AsyncWebCrawler := {|
  CrawlerResult := Visited;
  result_url := visit_url;
  result_markdown_str := visit_text;
  result_success := λ _, true;
  result_read_error := λ _, None;
  start := None;
  arun := spec_arun;
  close := None
|}.

End Crawler.

End Traversal.

(** ** Concrete collaborators, used to run the program on examples *)

Module Examples.

(** A stand-in for pydantic's [HttpUrl]: [http://] or [https://] followed
    by a host; a URL without path is given the path [/]. *)
Definition HttpUrl (s : string) : option string :=
  let after prefix :=
    if bool_decide (substring 0 (String.length prefix) s = prefix)
    then Some (substring (String.length prefix) (String.length s) s) else None in
  match (match after "https://" with Some r => Some r | None => after "http://" end) with
  | None => None
  | Some rest =>
      match Traversal.take_until Traversal.ends_authority rest with
      | EmptyString => None
      | host =>
          if bool_decide (host = rest) then Some (s +:+ "/") else Some s
      end
  end.

(** A framework whose [HTTPBearer] answers missing credentials and
    credentials of another scheme with a 401 and the header
    [WWW-Authenticate: Bearer], and whose [int] takes no value that is not
    an integer. *)
Definition framework : Framework := {|
  HttpUrl_validate := HttpUrl;
  int_lax := λ _, None;
  HTTPBearer_error :=
    {| status_code := 401; detail := "Not authenticated";
       headers := [("WWW-Authenticate", "Bearer")] |};
  HTTPBearer_scheme_error :=
    {| status_code := 401; detail := "Invalid authentication credentials";
       headers := [("WWW-Authenticate", "Bearer")] |}
|}.

(** The site of the specification's example scenarios: the seed links to
    two pages of its own host, to a page of another host and back to
    itself. *)
Definition site (u : string) : option Traversal.Page :=
  let page body ls :=
    Some {| Traversal.finalUrl := u; Traversal.html := body;
            Traversal.links := ls; Traversal.renderedText := body |} in
  if bool_decide (u = "https://example.com") then
    page "home" ["https://example.com/a"; "https://other.org/x";
                 "https://example.com/b"; "https://example.com#top"]
  else if bool_decide (u = "https://example.com/a") then
    page "a" ["https://example.com/b"; "https://example.com/c"]
  else if bool_decide (u = "https://example.com/b") then
    page "b" ["https://example.com"; "https://example.com/a#x"]
  else if bool_decide (u = "https://example.com/c") then
    page "c" []
  else None.

Definition crawler : AsyncWebCrawler := Traversal.spec_crawler site (λ h, h).

Definition run (max_depth : Z) :=
  @crawl_url crawler "https://example.com" max_depth [].

(** A crawler in the manner of crawl4ai: a page that cannot be fetched is
    not an exception but a result whose [success] is [False] and whose
    markdown is absent. *)
Record Reported := {
  reported_url : string;
  reported_success : bool;
  reported_markdown : option string
}.

Definition reporting_crawler : AsyncWebCrawler := {|
  CrawlerResult := Reported;
  result_url := reported_url;
  result_markdown_str := λ r, default "None" (reported_markdown r);
  result_success := reported_success;
  result_read_error := λ _, None;
  start := None;
  arun := λ url _,
    ([url], inr [{| reported_url := url; reported_success := false;
                    reported_markdown := None |}]);
  close := None
|}.


(** The JSON body [{"url": "https://example.com/a"}], with [max_depth] when
    one is given. *)
Definition body (max_depth : option Z) : Body :=
  BodyJSON (JObject (("url", JString "https://example.com/a")
                     :: match max_depth with
                        | Some d => [("max_depth", JInt d)]
                        | None => []
                        end)).

Definition request (max_depth : Z) : CrawlRequest.t :=
  {| CrawlRequest.url := "https://example.com"; CrawlRequest.max_depth := max_depth |}.

(** The process environment with [API_KEY] set, and without it. *)
Definition environ_with_key : gmap string string := {[ "API_KEY" := "s3cret" ]}.
Definition environ_unset : gmap string string := ∅.
Definition environ_empty_key : gmap string string := {[ "API_KEY" := "" ]}.

End Examples.

(** * Properties *)

(** ** Traces *)

Lemma arun_calls_app tr1 tr2 :
  arun_calls (tr1 ++ tr2) = arun_calls tr1 ++ arun_calls tr2.
Proof. apply omap_app. Qed.

Lemma fetch_calls_app tr1 tr2 :
  fetch_calls (tr1 ++ tr2) = fetch_calls tr1 ++ fetch_calls tr2.
Proof. apply omap_app. Qed.

Lemma arun_calls_fetches urls : arun_calls (FetchCall <$> urls) = [].
Proof. induction urls as [|u urls IH]; [reflexivity | exact IH]. Qed.

Lemma fetch_calls_fetches urls : fetch_calls (FetchCall <$> urls) = urls.
Proof.
  induction urls as [|u urls IH]; [reflexivity|].
  cbn. unfold fetch_calls in IH. by rewrite IH.
Qed.

Lemma arun_calls_call tr url config fetched :
  arun_calls (tr ++ ArunCall url config :: (FetchCall <$> fetched))
    = arun_calls tr ++ [(url, config)].
Proof.
  rewrite arun_calls_app. f_equal.
  change (arun_calls (ArunCall url config :: (FetchCall <$> fetched)))
    with ((url, config) :: arun_calls (FetchCall <$> fetched)).
  by rewrite arun_calls_fetches.
Qed.

Lemma fetch_calls_call tr url config fetched :
  fetch_calls (tr ++ ArunCall url config :: (FetchCall <$> fetched))
    = fetch_calls tr ++ fetched.
Proof.
  rewrite fetch_calls_app. f_equal.
  change (fetch_calls (ArunCall url config :: (FetchCall <$> fetched)))
    with (fetch_calls (FetchCall <$> fetched)).
  by rewrite fetch_calls_fetches.
Qed.

(** ** Running [crawl_url] and [crawl_endpoint] *)

Section Orchestration.

Context `{F : Framework} `{C : AsyncWebCrawler}.

Local Abbreviation crawling_failed e :=
  {| status_code := 500;
     detail := "Crawling failed: " +:+ str_exc e;
     headers := [] |}.

Lemma collect_inr results converted :
  collect results = inr converted → converted = to_CrawlResult <$> results.
Proof.
  revert converted. induction results as [|r rest IH]; intros converted; cbn.
  - by intros [= <-].
  - destruct (result_read_error r); [discriminate|].
    destruct (collect rest) as [e|converted']; [discriminate|].
    intros [= <-]. by rewrite (IH converted').
Qed.

Lemma collect_readable results :
  (∀ r, r ∈ results → result_read_error r = None) →
  collect results = inr (to_CrawlResult <$> results).
Proof.
  induction results as [|r rest IH]; intros Hread; cbn; [done|].
  rewrite (Hread r) by left. rewrite IH; [done|].
  intros r' Hr'. apply Hread. by right.
Qed.

(** [crawl_url], step by step. *)
Lemma crawl_url_run url max_depth tr :
  crawl_url url max_depth tr =
    match start with
    | Some e => (inl (crawling_failed e), tr)
    | None =>
        (match close with
         | Some e => inl (crawling_failed e)
         | None =>
             match (arun url (crawl_config max_depth)).2 with
             | inl e => inl (crawling_failed e)
             | inr results =>
                 match collect results with
                 | inl e => inl (crawling_failed e)
                 | inr converted => inr (ResultList converted)
                 end
             end
         end,
         tr ++ ArunCall url (crawl_config max_depth)
            :: (FetchCall <$> (arun url (crawl_config max_depth)).1))
    end.
Proof.
  unfold crawl_url, with_crawler, call_arun, mbind, M_bind, mret, M_ret.
  destruct start as [e|]; [reflexivity|].
  destruct (arun url (crawl_config max_depth)) as [fetched [e|results]]; cbn.
  - destruct close; reflexivity.
  - destruct close; [reflexivity|]. destruct (collect results); reflexivity.
Qed.

(** A crawler that starts and closes without error and whose results can
    all be read. *)
Lemma crawl_url_run_clean url max_depth tr :
  start = None → close = None → (∀ r, result_read_error r = None) →
  crawl_url url max_depth tr =
    (match (arun url (crawl_config max_depth)).2 with
     | inr results => inr (ResultList (to_CrawlResult <$> results))
     | inl e => inl (crawling_failed e)
     end,
     tr ++ ArunCall url (crawl_config max_depth)
        :: (FetchCall <$> (arun url (crawl_config max_depth)).1)).
Proof.
  intros Hstart Hclose Hread. rewrite crawl_url_run, Hstart, Hclose.
  destruct (arun url (crawl_config max_depth)).2 as [e|results]; [done|].
  rewrite collect_readable; [done|]. intros r _. apply Hread.
Qed.

Lemma crawl_url_never_unwrapped url max_depth tr r :
  (crawl_url url max_depth tr).1 ≠ inr (OneResult r).
Proof.
  rewrite crawl_url_run.
  destruct start; [discriminate|]. cbn.
  destruct close; [discriminate|].
  destruct (arun url (crawl_config max_depth)).2 as [e|results]; [discriminate|].
  destruct (collect results); discriminate.
Qed.


(** Every success of [crawl_url] is the list of the crawler's results. *)
Lemma crawl_url_success url max_depth tr response tr' :
  crawl_url url max_depth tr = (inr response, tr') →
  start = None ∧ close = None ∧
  ∃ results,
    (arun url (crawl_config max_depth)).2 = inr results ∧
    response = ResultList (to_CrawlResult <$> results) ∧
    tr' = tr ++ ArunCall url (crawl_config max_depth)
             :: (FetchCall <$> (arun url (crawl_config max_depth)).1).
Proof.
  rewrite crawl_url_run.
  destruct start; [discriminate|].
  destruct close; [discriminate|].
  destruct (arun url (crawl_config max_depth)).2 as [e0|results]; [discriminate|].
  destruct (collect results) as [e0|converted] eqn:Hcollect; [discriminate|].
  intros [= <- <-]. split_and!; try done.
  exists results. by rewrite (collect_inr _ _ Hcollect).
Qed.

Lemma crawl_config_nonpositive max_depth :
  (max_depth ≤ 0)%Z → crawl_config max_depth = crawl_config 0.
Proof.
  intros Hd. unfold crawl_config.
  destruct (Z.ltb_spec 0 max_depth) as [Hlt|_]; [lia | reflexivity].
Qed.

Lemma authenticate_ok environ :
  getenv environ "API_KEY" "admin" ≠ "" →
  authenticate environ (Some (getenv environ "API_KEY" "admin"))
    = inr (getenv environ "API_KEY" "admin").
Proof.
  intros Hne. unfold authenticate, security, verify_api_key.
  rewrite bool_decide_eq_false_2 by done. cbn.
  rewrite bool_decide_eq_false_2; [done | intros H; by apply H].
Qed.

Lemma authenticate_inr environ presented key :
  authenticate environ presented = inr key →
  presented = Some (getenv environ "API_KEY" "admin") ∧
  key = getenv environ "API_KEY" "admin" ∧ key ≠ "".
Proof.
  unfold authenticate, security, verify_api_key.
  destruct presented as [token|]; [|discriminate].
  case_bool_decide as Hempty; [discriminate|]. cbn.
  case_bool_decide as Hne; [discriminate|].
  intros [= <-].
  destruct (decide (token = getenv environ "API_KEY" "admin")) as [Heq|Hd];
    [|by destruct Hne].
  split_and!; [by rewrite <- Heq | done | done].
Qed.


(** The endpoint is its dependency followed by [crawl_url]. *)
Lemma crawl_endpoint_run environ presented request tr :
  crawl_endpoint environ presented request tr =
    match authenticate environ presented with
    | inl e => (inl e, tr)
    | inr _ =>
        crawl_url (CrawlRequest.url request) (CrawlRequest.max_depth request) tr
    end.
Proof.
  unfold crawl_endpoint, authenticate, lift, mbind, M_bind, mret, M_ret, raise.
  destruct (security presented) as [e|creds]; [reflexivity|].
  destruct (verify_api_key environ creds); reflexivity.
Qed.

Lemma crawl_endpoint_authorized environ request tr :
  getenv environ "API_KEY" "admin" ≠ "" →
  crawl_endpoint environ (Some (getenv environ "API_KEY" "admin")) request tr =
    crawl_url (CrawlRequest.url request) (CrawlRequest.max_depth request) tr.
Proof.
  intros Hne. by rewrite crawl_endpoint_run, authenticate_ok.
Qed.

Lemma crawl_endpoint_wrong_token environ token request tr :
  token ≠ "" →
  token ≠ getenv environ "API_KEY" "admin" →
  crawl_endpoint environ (Some token) request tr =
    (inl {| status_code := 401; detail := "Invalid API key";
            headers := [("WWW-Authenticate", "Bearer")] |}, tr).
Proof.
  intros Hempty Hne. rewrite crawl_endpoint_run.
  unfold authenticate, security, verify_api_key.
  rewrite bool_decide_eq_false_2 by done. cbn.
  by rewrite bool_decide_eq_true_2.
Qed.

Lemma crawl_endpoint_no_token environ request tr :
  crawl_endpoint environ None request tr = (inl HTTPBearer_error, tr).
Proof. reflexivity. Qed.

Lemma crawl_endpoint_empty_token environ request tr :
  crawl_endpoint environ (Some "") request tr = (inl HTTPBearer_error, tr).
Proof. reflexivity. Qed.

End Orchestration.

(** ** URL normalization and hosts *)

Module UrlFacts.
Import Traversal.

Lemma take_until_idem stop s :
  take_until stop (take_until stop s) = take_until stop s.
Proof.
  induction s as [|c s IH]; [reflexivity|].
  cbn. destruct (stop c) eqn:Hc; [reflexivity|].
  cbn. rewrite Hc, IH. reflexivity.
Qed.

Lemma normalize_idem u : normalize (normalize u) = normalize u.
Proof. apply take_until_idem. Qed.

Lemma host_of_normalize u : host_of (normalize u) = host_of u.
Proof. unfold host_of. rewrite normalize_idem. reflexivity. Qed.

Lemma in_scope_host seed c :
  in_scope false seed c = true →
  host_of c = host_of seed ∧ is_Some (host_of seed).
Proof.
  unfold in_scope. cbn.
  destruct (host_of c) as [h|], (host_of seed) as [h'|]; try discriminate.
  intros ->%bool_decide_eq_true_1. eauto.
Qed.

(** [take_until] and [after_colon] on a string written as a prefix
    followed by the rest. *)
Lemma append_cons c s t : String c s +:+ t = String c (s +:+ t).
Proof. reflexivity. Qed.

Lemma append_empty_r s : s +:+ "" = s.
Proof. induction s as [|c s IH]; [done|]. by rewrite append_cons, IH. Qed.

Lemma take_until_app stop s t :
  all_chars (λ c, negb (stop c)) s = true →
  take_until stop (s +:+ t) = s +:+ take_until stop t.
Proof.
  induction s as [|c s IH]; [done|]. cbn [all_chars].
  intros [Hc Hs]%andb_true_iff. apply negb_true_iff in Hc.
  rewrite !append_cons. cbn [take_until]. by rewrite Hc, IH.
Qed.

Lemma take_until_all stop s :
  all_chars (λ c, negb (stop c)) s = true → take_until stop s = s.
Proof.
  induction s as [|c s IH]; cbn; [done|].
  intros [Hc Hs]%andb_true_iff. apply negb_true_iff in Hc.
  by rewrite Hc, IH.
Qed.

Lemma all_chars_impl (p q : ascii → bool) s :
  (∀ c, p c = true → q c = true) →
  all_chars p s = true → all_chars q s = true.
Proof.
  intros Hpq. induction s as [|c s IH]; cbn; [done|].
  intros [Hc Hs]%andb_true_iff. by rewrite (Hpq c Hc), IH.
Qed.

Lemma scheme_char_not (c0 : ascii) c :
  scheme_char c0 = false → scheme_char c = true → Ascii.eqb c c0 = false.
Proof.
  intros H0 Hc. destruct (Ascii.eqb_spec c c0) as [->|]; [congruence | done].
Qed.

Lemma is_alpha_scheme_char c : is_alpha c = true → scheme_char c = true.
Proof. unfold scheme_char. by intros ->. Qed.

Lemma after_colon_app s t :
  all_chars scheme_char s = true → after_colon (s +:+ String ":" t) = Some t.
Proof.
  induction s as [|c s IH]; [done|]. cbn [all_chars].
  intros [Hc Hs]%andb_true_iff.
  rewrite append_cons. cbn [after_colon].
  rewrite (scheme_char_not ":" c) by done. by rewrite Hc, IH.
Qed.

Lemma host_char_spec c :
  host_char c = true →
  ends_authority c = false ∧ is_hash c = false ∧
  Ascii.eqb c "@" = false ∧ Ascii.eqb c ":" = false ∧ Ascii.eqb c "[" = false.
Proof.
  unfold host_char, ends_authority, is_hash.
  destruct (Ascii.eqb c "/"), (Ascii.eqb c "?"), (Ascii.eqb c "#"),
    (Ascii.eqb c "@"), (Ascii.eqb c ":"), (Ascii.eqb c "["); cbn; try discriminate.
  done.
Qed.

Lemma after_last_none c0 s :
  all_chars (λ c, negb (Ascii.eqb c c0)) s = true → after_last c0 s = None.
Proof.
  induction s as [|c s IH]; cbn; [done|].
  intros [Hc Hs]%andb_true_iff. apply negb_true_iff in Hc.
  by rewrite IH, Hc.
Qed.

Lemma take_until_starts_path rest :
  starts_path rest = true → take_until ends_authority (normalize rest) = "".
Proof.
  destruct rest as [|c rest]; [done|]. cbn. intros Hc.
  unfold is_hash. destruct (Ascii.eqb c "#") eqn:Hhash; [done|].
  cbn. by rewrite Hc.
Qed.

Lemma normalize_url sch host rest :
  is_scheme sch = true →
  all_chars host_char host = true →
  normalize (sch +:+ "://" +:+ host +:+ rest)
    = sch +:+ "://" +:+ host +:+ normalize rest.
Proof.
  intros Hsch Hhost. unfold normalize.
  rewrite take_until_app.
  - rewrite (take_until_app is_hash "://") by reflexivity.
    rewrite take_until_app; [done|].
    apply (all_chars_impl host_char); [|done].
    intros c Hc. apply negb_true_iff. by apply host_char_spec.
  - destruct sch as [|c0 sch]; [discriminate|].
    cbn in Hsch. apply andb_true_iff in Hsch as [Halpha Hsch].
    cbn [all_chars]. apply andb_true_iff. split.
    + apply negb_true_iff, (scheme_char_not "#"); [done|].
      by apply is_alpha_scheme_char.
    + apply (all_chars_impl scheme_char); [|done].
      intros c Hc. apply negb_true_iff. by apply (scheme_char_not "#").
Qed.

Lemma authority_url sch rest :
  is_scheme sch = true →
  authority (sch +:+ "://" +:+ rest) = Some (take_until ends_authority rest).
Proof.
  intros Hsch.
  destruct sch as [|c0 sch]; [discriminate|].
  cbn in Hsch. apply andb_true_iff in Hsch as [Halpha Hsch].
  unfold authority, hier_part. rewrite append_cons, Halpha.
  rewrite <- append_cons.
  change ("://" +:+ rest) with (String ":" (String "/" (String "/" rest))).
  rewrite after_colon_app; [done|].
  cbn [all_chars]. by rewrite (is_alpha_scheme_char _ Halpha).
Qed.

Lemma drop_port_plain host :
  all_chars host_char host = true → drop_port host = host.
Proof.
  intros Hhost.
  assert (Hcolon : take_until (λ c, Ascii.eqb c ":") host = host).
  { apply take_until_all. apply (all_chars_impl host_char); [|done].
    intros c Hc. apply negb_true_iff. by apply host_char_spec. }
  destruct host as [|c h]; [done|].
  cbn in Hhost. apply andb_true_iff in Hhost as [Hc _].
  apply host_char_spec in Hc as (_ & _ & _ & _ & Hbr).
  unfold drop_port.
  destruct c as [[] [] [] [] [] [] [] []]; try exact Hcolon; discriminate.
Qed.

(** The host of a URL of the usual form is the host written in it, in
    lower case. *)
Lemma host_of_url sch host rest :
  is_scheme sch = true →
  all_chars host_char host = true →
  starts_path rest = true →
  host_of (sch +:+ "://" +:+ host +:+ rest) = Some (lower host).
Proof.
  intros Hsch Hhost Hrest. unfold host_of.
  rewrite normalize_url, authority_url by done.
  rewrite take_until_app
    by (apply (all_chars_impl host_char); [|done];
        intros c Hc; apply negb_true_iff; by apply host_char_spec).
  rewrite take_until_starts_path, append_empty_r by done.
  cbn. unfold drop_userinfo.
  rewrite after_last_none
    by (apply (all_chars_impl host_char); [|done];
        intros c Hc; apply negb_true_iff; by apply host_char_spec).
  cbn [default]. by rewrite drop_port_plain.
Qed.

(** Links that only mention the seed's host, in a query or after
    [mailto:], are not on that host. *)
Lemma host_of_examples :
  host_of "https://example.com/a?x=1#top" = Some "example.com" ∧
  host_of "HTTPS://user@Example.COM:8443/a" = Some "example.com" ∧
  host_of "//evil.com/p?next=https://example.com/" = Some "evil.com" ∧
  host_of "https://example.com@evil.com/" = Some "evil.com" ∧
  host_of "mailto:a@evil.com?body=https://example.com/x" = None ∧
  host_of "javascript:open('https://example.com/')" = None ∧
  host_of "/a/b?next=https://example.com/" = None.
Proof. vm_compute. done. Qed.

End UrlFacts.

(** ** Invariants of the breadth-first traversal *)

Section TraversalFacts.
Import Traversal.

Variable fetch : string → option Page.
Variable toText : string → string.
Variable scope : string → bool.

Lemma fresh_for_refl from st : fresh_for scope from st st [].
Proof.
  unfold fresh_for. split_and!.
  - by rewrite app_nil_r.
  - set_solver.
  - constructor.
  - intros x Hx. inversion Hx.
Qed.

Lemma fresh_for_weaken from from' st st' new :
  (∀ x, x ∈ from → x ∈ from') →
  fresh_for scope from st st' new → fresh_for scope from' st st' new.
Proof.
  intros Hsub (Hq & Hs & Hnd & Hnew). split_and!; try done.
  intros x Hx. destruct (Hnew x Hx) as (? & ? & ?). auto.
Qed.

Lemma fresh_for_trans from st1 st2 st3 new1 new2 :
  fresh_for scope from st1 st2 new1 →
  fresh_for scope from st2 st3 new2 →
  fresh_for scope from st1 st3 (new1 ++ new2).
Proof.
  intros (Hq1 & Hs1 & Hnd1 & Hnew1) (Hq2 & Hs2 & Hnd2 & Hnew2).
  split_and!.
  - by rewrite Hq2, Hq1, app_assoc.
  - rewrite Hs2, Hs1, list_to_set_app_L. set_solver.
  - apply NoDup_app. split_and!; try done.
    intros x Hx1 Hx2. destruct (Hnew2 x Hx2) as (Hfresh & _).
    apply Hfresh. rewrite Hs1. set_solver.
  - intros x [Hx|Hx]%elem_of_app.
    + by apply Hnew1.
    + destruct (Hnew2 x Hx) as (Hfresh & ? & ?). split_and!; try done.
      intros Hin. apply Hfresh. rewrite Hs1. set_solver.
Qed.

Lemma discover_link_fresh l st :
  ∃ new, fresh_for scope [normalize l] st (discover_link scope st l) new.
Proof.
  unfold discover_link.
  destruct (scope (normalize l) && negb (bool_decide (normalize l ∈ seen st))) eqn:Hc.
  - apply andb_true_iff in Hc as [Hsc Hns].
    apply negb_true_iff, bool_decide_eq_false in Hns.
    exists [normalize l]. split_and!; cbn.
    + done.
    + set_solver.
    + apply NoDup_singleton.
    + intros x ->%list_elem_of_singleton. split_and!; try done. set_solver.
  - exists []. apply fresh_for_refl.
Qed.

Lemma discover_fresh page_links st :
  ∃ new, fresh_for scope (normalize <$> page_links) st (discover scope page_links st) new.
Proof.
  unfold discover. revert st.
  induction page_links as [|l ls IH]; intros st.
  - exists []. apply fresh_for_refl.
  - cbn [foldl]. destruct (discover_link_fresh l st) as (new1 & H1).
    destruct (IH (discover_link scope st l)) as (new2 & H2).
    exists (new1 ++ new2). eapply fresh_for_trans.
    + eapply fresh_for_weaken; [|exact H1]. set_solver.
    + eapply fresh_for_weaken; [|exact H2]. set_solver.
Qed.

Lemma visit_level_fetched depth expand level st :
  ∀ u, u ∈ (visit_level fetch toText scope depth expand level st).1 → u ∈ level.
Proof.
  revert st. induction level as [|u0 rest IH]; intros st u; cbn.
  - done.
  - destruct (fetch u0) as [page|]; cbn.
    + destruct (visit_level _ _ _ _ _ rest _) as [fetched r] eqn:Hrest. cbn.
      intros [->|Hin]%elem_of_cons; [left|right].
      eapply IH. rewrite Hrest. exact Hin.
    + intros ->%list_elem_of_singleton. left.
Qed.

Lemma offered_cons u page rest :
  fetch u = Some page →
  offered fetch (u :: rest) = (normalize <$> links page) ++ offered fetch rest.
Proof. intros Hfetch. unfold offered. cbn. by rewrite Hfetch. Qed.

Lemma visit_level_ok depth expand level st fetched rs st' :
  visit_level fetch toText scope depth expand level st = (fetched, inr (rs, st')) →
  fetched = level ∧
  visit_url <$> rs = level ∧
  Forall (λ v, visit_depth v = depth) rs ∧
  (∀ v, v ∈ rs → ∃ page, fetch (visit_url v) = Some page ∧
                         visit_text v = toText (html page)) ∧
  ∃ new, fresh_for scope (offered fetch level) st st' new ∧
         (expand = false → new = []).
Proof.
  revert st fetched rs st'.
  induction level as [|u rest IH]; intros st fetched rs st'; cbn [visit_level].
  - intros [= <- <- <-]. split_and!; try done.
    + intros v Hv. inversion Hv.
    + exists []. split; [apply fresh_for_refl | done].
  - destruct (fetch u) as [page|] eqn:Hfetch; [|discriminate].
    destruct (visit_level _ _ _ _ _ rest _) as [fetched' [e|[rs' st'']]] eqn:Hrest;
      [discriminate|].
    intros [= <- <- <-].
    destruct (IH _ _ _ _ Hrest) as (-> & Hurls & Hdepth & Hpages & new2 & Hfresh2 & Hexp).
    split_and!.
    + done.
    + cbn. by rewrite Hurls.
    + constructor; [done | exact Hdepth].
    + intros v [->|Hv]%elem_of_cons; [|by apply Hpages].
      exists page. by cbn.
    + rewrite (offered_cons _ _ _ Hfetch).
      destruct expand.
      * destruct (discover_fresh (links page) st) as (new1 & Hfresh1).
        exists (new1 ++ new2). split; [|done].
        eapply fresh_for_trans.
        -- eapply fresh_for_weaken; [|exact Hfresh1]. set_solver.
        -- eapply fresh_for_weaken; [|exact Hfresh2]. set_solver.
      * exists new2. split; [|exact Hexp].
        eapply fresh_for_weaken; [|exact Hfresh2]. set_solver.
Qed.

Lemma offered_parent level x :
  x ∈ offered fetch level →
  ∃ u page, u ∈ level ∧ fetch u = Some page ∧ x ∈ normalize <$> links page.
Proof.
  unfold offered. intros (u & Hx & Hu)%list_elem_of_bind.
  destruct (fetch u) as [page|] eqn:Hfetch; [|inversion Hx].
  by exists u, page.
Qed.

Lemma breadth_first_app d rs1 rs2 :
  Forall (λ v, visit_depth v = d) rs1 →
  (∀ v, v ∈ rs2 → d ≤ visit_depth v) →
  breadth_first rs2 →
  breadth_first (rs1 ++ rs2).
Proof.
  intros H1 H2 Hbf i j a b Ha Hb Hij.
  rewrite Forall_forall in H1.
  apply lookup_app_Some in Ha as [Ha|[Hi Ha]];
    apply lookup_app_Some in Hb as [Hb|[Hj Hb]].
  - apply list_elem_of_lookup_2 in Ha, Hb.
    rewrite (H1 a Ha), (H1 b Hb). done.
  - apply list_elem_of_lookup_2 in Ha, Hb.
    rewrite (H1 a Ha). by apply H2.
  - apply lookup_lt_Some in Hb. lia.
  - eapply Hbf; [exact Ha | exact Hb | lia].
Qed.

(** The order read level by level: a result of smaller depth always comes
    first. *)
Lemma breadth_first_levels rs i j a b :
  breadth_first rs →
  rs !! i = Some a → rs !! j = Some b →
  visit_depth b < visit_depth a → j < i.
Proof.
  intros Hbf Ha Hb Hlt.
  destruct (decide (j < i)) as [|Hge]; [done|].
  destruct (decide (i = j)) as [->|Hne].
  - rewrite Ha in Hb. injection Hb as ->. lia.
  - assert (Hij : i < j) by lia.
    pose proof (Hbf i j a b Ha Hb Hij). lia.
Qed.

Lemma visit_level_succeeds depth expand level st :
  (∀ u, u ∈ level → is_Some (fetch u)) →
  ∃ rs st',
    visit_level fetch toText scope depth expand level st = (level, inr (rs, st')).
Proof.
  revert st. induction level as [|u rest IH]; intros st Hall; cbn [visit_level].
  - by exists [], st.
  - destruct (Hall u) as [page Hfetch]; [left|]. rewrite Hfetch.
    destruct (IH (if expand then discover scope (links page) st else st))
      as (rs & st' & Hrest).
    { intros x Hx. apply Hall. by right. }
    rewrite Hrest. eauto.
Qed.

(** The traversal returns a result whenever the URLs of its first level
    and every URL in scope can be fetched. *)
Lemma bfs_succeeds budget :
  (∀ u, scope u = true → is_Some (fetch u)) →
  ∀ depth level seen0,
    (∀ u, u ∈ level → is_Some (fetch u)) →
    ∃ rs, (bfs fetch toText scope budget depth level seen0).2 = inr rs.
Proof.
  intros Hfetch.
  induction budget as [|budget IH]; intros depth level seen0 Hlevel; cbn [bfs].
  - destruct (visit_level_succeeds depth false level {| seen := seen0; queue := [] |})
      as (rs & st' & ->); [done|]. by exists rs.
  - destruct (visit_level_succeeds depth true level {| seen := seen0; queue := [] |})
      as (rs & st' & Hlv); [done|]. rewrite Hlv.
    destruct (visit_level_ok _ _ _ _ _ _ _ Hlv)
      as (_ & _ & _ & _ & new & (Hq & _ & _ & Hnew) & _).
    cbn in Hq. subst new.
    destruct (IH (S depth) (queue st') (seen st')) as (rs' & Hrec).
    { intros x Hx. apply Hfetch. by destruct (Hnew x Hx) as (_ & ? & _). }
    destruct (bfs _ _ _ budget _ _ _) as [fetched' r']. cbn in Hrec. subst r'.
    by exists (rs ++ rs').
Qed.

(** Whatever the outcome, a URL that is fetched belongs to the first level
    or is in scope. *)
Lemma bfs_fetched budget :
  ∀ depth level seen0 u,
    u ∈ (bfs fetch toText scope budget depth level seen0).1 →
    u ∈ level ∨ scope u = true.
Proof.
  induction budget as [|budget IH]; intros depth level seen0 u; cbn [bfs].
  - pose proof (visit_level_fetched depth false level {| seen := seen0; queue := [] |}) as Hf.
    destruct (visit_level _ _ _ _ _ level _) as [fetched r]. cbn in *.
    intros Hu. left. auto.
  - pose proof (visit_level_fetched depth true level {| seen := seen0; queue := [] |}) as Hf.
    destruct (visit_level _ _ _ _ _ level _) as [fetched [e|[rs st]]] eqn:Hlv; cbn in Hf.
    + cbn. intros Hu. left. auto.
    + destruct (visit_level_ok _ _ _ _ _ _ _ Hlv)
        as (_ & _ & _ & _ & new & (Hq & _ & _ & Hnew) & _).
      cbn in Hq. subst new.
      specialize (IH (S depth) (queue st) (seen st) u).
      destruct (bfs _ _ _ budget _ _ _) as [fetched' r']. cbn in *.
      intros [Hu|Hu]%elem_of_app; [left; auto|].
      right. destruct (IH Hu) as [Hin|Hsc]; [|done].
      by destruct (Hnew u Hin) as (_ & ? & _).
Qed.

(** The invariant of the traversal: started on a duplicate-free level
    whose URLs are all marked seen, it returns the level itself at depth
    [depth], followed by URLs that were not seen before, are in scope,
    lie at most [budget] levels deeper and were each linked from a page
    returned one level above. *)
Lemma bfs_ok budget :
  ∀ depth level seen0 fetched rs,
    NoDup level →
    (∀ u, u ∈ level → u ∈ seen0) →
    bfs fetch toText scope budget depth level seen0 = (fetched, inr rs) →
    fetched = visit_url <$> rs ∧
    NoDup (visit_url <$> rs) ∧
    breadth_first rs ∧
    ∀ v, v ∈ rs →
      (visit_url v ∈ level ∧ visit_depth v = depth) ∨
      ((visit_url v ∉ seen0) ∧ scope (visit_url v) = true ∧
       depth < visit_depth v ≤ depth + budget ∧
       ∃ p page, p ∈ rs ∧ S (visit_depth p) = visit_depth v ∧
                 fetch (visit_url p) = Some page ∧
                 visit_url v ∈ normalize <$> links page).
Proof.
  induction budget as [|budget IH]; intros depth level seen0 fetched rs Hnd Hseen; cbn [bfs].
  - destruct (visit_level _ _ _ _ _ level _) as [fetched0 [e|[rs0 st]]] eqn:Hlv;
      [discriminate|].
    intros [= <- <-].
    destruct (visit_level_ok _ _ _ _ _ _ _ Hlv) as (-> & Hurls & Hdepth & _).
    rewrite Forall_forall in Hdepth.
    split_and!.
    + done.
    + by rewrite Hurls.
    + intros i j a b Ha Hb _.
      apply list_elem_of_lookup_2 in Ha, Hb.
      by rewrite (Hdepth a Ha), (Hdepth b Hb).
    + intros v Hv. left. split; [|by apply Hdepth].
      rewrite <- Hurls. by apply list_elem_of_fmap_2.
  - destruct (visit_level _ _ _ _ _ level _) as [fetched0 [e|[rs0 st]]] eqn:Hlv;
      [discriminate|].
    destruct (bfs _ _ _ budget _ _ _) as [fetched1 [e|rs1]] eqn:Hrec; [discriminate|].
    intros [= <- <-].
    destruct (visit_level_ok _ _ _ _ _ _ _ Hlv)
      as (-> & Hurls & Hdepth & _ & new & (Hq & Hs & Hndnew & Hnew) & _).
    cbn in Hq, Hs, Hnew. subst new.
    assert (Hsub : ∀ x, x ∈ seen0 → x ∈ seen st) by (rewrite Hs; set_solver).
    assert (Hqseen : ∀ u, u ∈ queue st → u ∈ seen st)
      by (intros u Hu; rewrite Hs; set_solver).
    destruct (IH (S depth) (queue st) (seen st) _ _ Hndnew Hqseen Hrec)
      as (-> & Hnd1 & Hbf1 & Hrs1).
    assert (Hdeeper : ∀ v, v ∈ rs1 → (visit_url v ∉ seen0) ∧ depth < visit_depth v).
    { intros v Hv. destruct (Hrs1 v Hv) as [[Hin ->]|(Hfresh & _ & Hd & _)].
      - destruct (Hnew _ Hin) as (? & _). split; [done | lia].
      - split; [|lia]. intros Hin. apply Hfresh. auto. }
    pose proof Hdepth as Hdepth'. rewrite Forall_forall in Hdepth'.
    split_and!.
    + by rewrite fmap_app, Hurls.
    + rewrite fmap_app. apply NoDup_app. split_and!; [by rewrite Hurls | | done].
      rewrite Hurls. intros x Hx (v & -> & Hv)%list_elem_of_fmap.
      destruct (Hdeeper v Hv) as (Hfresh & _). apply Hfresh. auto.
    + apply (breadth_first_app depth); [done | | done].
      intros v Hv. destruct (Hdeeper v Hv). lia.
    + intros v [Hv|Hv]%elem_of_app.
      * left. split; [|by apply Hdepth'].
        rewrite <- Hurls. by apply list_elem_of_fmap_2.
      * right. destruct (Hrs1 v Hv)
          as [[Hin Hd]|(Hfresh & Hsc & Hd & p & page & Hp & Hpd & Hpf & Hpl)].
        -- destruct (Hnew _ Hin) as (Hfresh & Hsc & Hoff).
           apply offered_parent in Hoff as (u & page & Hu & Hfu & Hlink).
           rewrite <- Hurls in Hu. apply list_elem_of_fmap in Hu as (p & -> & Hp).
           split_and!; [done | done | lia | lia |].
           exists p, page. split_and!; try done.
           ++ apply elem_of_app. by left.
           ++ rewrite Hd. f_equal. by apply Hdepth'.
        -- split_and!; [|done|lia|lia|].
           ++ intros Hin. apply Hfresh. auto.
           ++ exists p, page. split_and!; try done. apply elem_of_app. by right.
Qed.

(** ** First discovery *)

Lemma discover_seen page_links st x :
  x ∈ seen st → x ∈ seen (discover scope page_links st).
Proof.
  intros Hx. destruct (discover_fresh page_links st) as (new & _ & Hs & _).
  rewrite Hs. set_solver.
Qed.

(** After [discover], every link in scope has been seen. *)
Lemma discover_closed page_links st x :
  x ∈ normalize <$> page_links → scope x = true →
  x ∈ seen (discover scope page_links st).
Proof.
  unfold discover. revert st.
  induction page_links as [|l ls IH]; intros st Hx Hsc; [inversion Hx|].
  cbn [foldl]. cbn in Hx. apply elem_of_cons in Hx as [->|Hx]; [|by apply IH].
  apply (discover_seen ls). unfold discover_link. rewrite Hsc. cbn.
  case_bool_decide as Hseen; cbn; [done | set_solver].
Qed.

Lemma visit_level_seen depth expand level st fetched rs st' x :
  visit_level fetch toText scope depth expand level st = (fetched, inr (rs, st')) →
  x ∈ seen st → x ∈ seen st'.
Proof.
  intros Hlv Hx.
  destruct (visit_level_ok _ _ _ _ _ _ _ Hlv) as (_ & _ & _ & _ & new & (_ & Hs & _) & _).
  rewrite Hs. set_solver.
Qed.

(** After a level has been expanded, every link of its pages that is in
    scope has been seen. *)
Lemma visit_level_closed depth level st fetched rs st' u x :
  visit_level fetch toText scope depth true level st = (fetched, inr (rs, st')) →
  u ∈ level → links_to fetch u x → scope x = true → x ∈ seen st'.
Proof.
  revert st fetched rs st'.
  induction level as [|u0 rest IH]; intros st fetched rs st'; cbn [visit_level];
    [intros _ Hu; inversion Hu|].
  destruct (fetch u0) as [page|] eqn:Hfetch; [|discriminate].
  destruct (visit_level _ _ _ _ _ rest _) as [fetched' [e|[rs' st'']]] eqn:Hrest;
    [discriminate|].
  intros [= <- <- <-] [->|Hu]%elem_of_cons (page' & Hpage' & Hlink) Hsc.
  - rewrite Hfetch in Hpage'. injection Hpage' as <-.
    eapply visit_level_seen; [exact Hrest|]. by apply discover_closed.
  - eapply IH; [exact Hrest | exact Hu | by exists page' | exact Hsc].
Qed.

(** A URL first seen while a level is expanded is linked from a page of
    that level, and from no earlier page of the level. *)
Lemma visit_level_first depth level st fetched rs st' x :
  visit_level fetch toText scope depth true level st = (fetched, inr (rs, st')) →
  x ∈ seen st' → x ∉ seen st →
  ∃ k u, level !! k = Some u ∧ links_to fetch u x ∧
         ∀ j u', j < k → level !! j = Some u' → ¬ links_to fetch u' x.
Proof.
  revert st fetched rs st'.
  induction level as [|u0 rest IH]; intros st fetched rs st'; cbn [visit_level].
  - intros [= <- <- <-] Hin Hout. by destruct Hout.
  - destruct (fetch u0) as [page|] eqn:Hfetch; [|discriminate].
    destruct (visit_level _ _ _ _ _ rest _) as [fetched' [e|[rs' st'']]] eqn:Hrest;
      [discriminate|].
    intros [= <- <- <-] Hin Hout.
    destruct (decide (x ∈ seen (discover scope (links page) st))) as [Hhead|Hhead].
    + exists 0, u0. split_and!; [done | | intros j u' Hj; lia].
      exists page. split; [done|].
      destruct (discover_fresh (links page) st) as (new & _ & Hs & _ & Hnew).
      rewrite Hs in Hhead. apply elem_of_union in Hhead as [Hx|Hx]; [|by destruct Hout].
      apply elem_of_list_to_set in Hx. by destruct (Hnew x Hx) as (_ & _ & ?).
    + destruct (IH _ _ _ _ Hrest Hin Hhead) as (k & u & Hk & Hlink & Hmin).
      exists (S k), u. split_and!; [done | done |].
      intros [|j] u' Hj Hu'.
      * cbn in Hu'. injection Hu' as <-. intros (page' & Hpage' & Hlink').
        rewrite Hfetch in Hpage'. injection Hpage' as <-.
        apply Hhead, discover_closed; [done|].
        destruct (visit_level_ok _ _ _ _ _ _ _ Hrest)
          as (_ & _ & _ & _ & new & (_ & Hs & _ & Hnew) & _).
        rewrite Hs in Hin. apply elem_of_union in Hin as [Hx|Hx]; [|by destruct Hhead].
        apply elem_of_list_to_set in Hx. by destruct (Hnew x Hx) as (_ & ? & _).
      * cbn in Hu'. apply (Hmin j u'); [lia | done].
Qed.

(** The invariant behind "first discovery wins". *)
Lemma bfs_first budget :
  ∀ depth level seen0 fetched rs,
    NoDup level →
    (∀ u, u ∈ level → u ∈ seen0) →
    bfs fetch toText scope budget depth level seen0 = (fetched, inr rs) →
    ∀ i v, rs !! i = Some v →
      (level !! i = Some (visit_url v) ∧ visit_depth v = depth) ∨
      ((visit_url v ∉ seen0) ∧ scope (visit_url v) = true ∧
       ∃ k p, k < i ∧ rs !! k = Some p ∧
              links_to fetch (visit_url p) (visit_url v) ∧
              visit_depth v = S (visit_depth p) ∧
              ∀ j q, j < k → rs !! j = Some q →
                     ¬ links_to fetch (visit_url q) (visit_url v)).
Proof.
  induction budget as [|budget IH]; intros depth level seen0 fetched rs Hnd Hseen; cbn [bfs].
  - destruct (visit_level _ _ _ _ _ level _) as [fetched0 [e|[rs0 st]]] eqn:Hlv;
      [discriminate|].
    intros [= <- <-] i v Hv.
    destruct (visit_level_ok _ _ _ _ _ _ _ Hlv) as (_ & Hurls & Hdepth & _).
    rewrite Forall_forall in Hdepth. left. split.
    + rewrite <- Hurls, list_lookup_fmap, Hv. done.
    + apply Hdepth. by eapply list_elem_of_lookup_2.
  - destruct (visit_level _ _ _ _ _ level _) as [fetched0 [e|[rs0 st]]] eqn:Hlv;
      [discriminate|].
    destruct (bfs _ _ _ budget _ _ _) as [fetched1 [e|rs1]] eqn:Hrec; [discriminate|].
    intros [= <- <-] i v Hv.
    destruct (visit_level_ok _ _ _ _ _ _ _ Hlv)
      as (_ & Hurls & Hdepth & _ & new & (Hq & Hs & Hndnew & Hnew) & _).
    cbn in Hq, Hs, Hnew. subst new.
    rewrite Forall_forall in Hdepth.
    assert (Hsub : ∀ x, x ∈ seen0 → x ∈ seen st) by (rewrite Hs; set_solver).
    assert (Hqseen : ∀ u, u ∈ queue st → u ∈ seen st)
      by (intros u Hu; rewrite Hs; set_solver).
    assert (Hlen : length rs0 = length level)
      by (by rewrite <- Hurls, length_fmap).
    assert (Hlevel : ∀ j q, rs0 !! j = Some q →
              level !! j = Some (visit_url q) ∧ visit_depth q = depth).
    { intros j q Hj. split.
      - rewrite <- Hurls, list_lookup_fmap, Hj. done.
      - apply Hdepth. by eapply list_elem_of_lookup_2. }
    apply lookup_app_Some in Hv as [Hv|[Hge Hv]]; [left; by apply Hlevel|].
    right.
    destruct (IH (S depth) (queue st) (seen st) _ _ Hndnew Hqseen Hrec _ _ Hv)
      as [[Hin Hd]|(Hfresh & Hsc & k' & p & Hk' & Hp & Hlink & Hd & Hmin)].
    + apply list_elem_of_lookup_2 in Hin.
      destruct (Hnew _ Hin) as (Hfresh & Hsc & _).
      destruct (visit_level_first _ _ _ _ _ _ (visit_url v) Hlv)
        as (k & u & Hk & Hlink & Hmin); [by apply Hqseen | done |].
      split_and!; [done | done |].
      assert (Hkn : k < length rs0)
        by (rewrite Hlen; by eapply lookup_lt_Some).
      destruct (lookup_lt_is_Some_2 rs0 k Hkn) as [p Hp].
      destruct (Hlevel k p Hp) as [Hpu Hpd].
      rewrite Hk in Hpu. injection Hpu as ->.
      exists k, p. split_and!; [lia | by apply lookup_app_l_Some | done | lia |].
      intros j q Hj Hq. rewrite lookup_app_l in Hq by lia.
      destruct (Hlevel j q Hq) as [Hqu _]. by apply (Hmin j).
    + split_and!; [intros Hin; apply Hfresh; auto | done |].
      exists (length rs0 + k'), p.
      split_and!; [lia | | done | done |].
      { rewrite lookup_app_r by lia. by replace (length rs0 + k' - length rs0) with k' by lia. }
      intros j q Hj Hq Hlinkq.
      apply lookup_app_Some in Hq as [Hq|[Hjge Hq]].
      * destruct (Hlevel j q Hq) as [Hqu _].
        apply Hfresh. eapply visit_level_closed; [exact Hlv | | exact Hlinkq | exact Hsc].
        by eapply list_elem_of_lookup_2.
      * apply (Hmin (j - length rs0) q); [lia | done | done].
Qed.

End TraversalFacts.

(** ** The crawler as a whole *)

Section CrawlerFacts.
Import Traversal UrlFacts.

Variable fetch : string → option Page.
Variable toText : string → string.

Local Abbreviation crawler := (spec_crawler fetch toText).

Lemma crawl_url_spec url max_depth tr :
  @crawl_url crawler url max_depth tr =
    (match (spec_arun fetch toText url (crawl_config max_depth)).2 with
     | inr results => inr (ResultList (@to_CrawlResult crawler <$> results))
     | inl e => inl {| status_code := 500;
                       detail := "Crawling failed: " +:+ str_exc e;
                       headers := [] |}
     end,
     tr ++ ArunCall url (crawl_config max_depth)
        :: (FetchCall <$> (spec_arun fetch toText url (crawl_config max_depth)).1)).
Proof. by rewrite (@crawl_url_run_clean crawler). Qed.

Lemma spec_arun_single url config :
  deep_crawl_strategy config = None →
  spec_arun fetch toText url config =
    ([normalize url],
     match fetch (normalize url) with
     | Some page => inr [{| visit_url := normalize url; visit_depth := 0;
                            visit_text := toText (html page) |}]
     | None => inl (FetchFailure (normalize url))
     end).
Proof.
  intros Hnone. unfold spec_arun. rewrite Hnone. cbn.
  destruct (fetch (normalize url)); reflexivity.
Qed.

Lemma spec_arun_seed_failure url config :
  fetch (normalize url) = None →
  spec_arun fetch toText url config =
    ([normalize url], inl (FetchFailure (normalize url))).
Proof.
  intros Hfail. unfold spec_arun.
  destruct (deep_crawl_strategy config) as [strategy|].
  - destruct (Z.to_nat (BFSDeepCrawlStrategy.max_depth strategy)); cbn; by rewrite Hfail.
  - cbn. by rewrite Hfail.
Qed.

Lemma spec_arun_ok url config fetched rs :
  spec_arun fetch toText url config = (fetched, inr rs) →
  fetched = visit_url <$> rs ∧
  NoDup (visit_url <$> rs) ∧
  breadth_first rs ∧
  ∀ v, v ∈ rs →
    discovered fetch url rs v ∧
    match deep_crawl_strategy config with
    | None => visit_depth v = 0
    | Some strategy =>
        visit_depth v ≤ Z.to_nat (BFSDeepCrawlStrategy.max_depth strategy) ∧
        (BFSDeepCrawlStrategy.include_external strategy = false →
         host_of (visit_url v) = host_of url)
    end.
Proof.
  unfold spec_arun.
  assert (Hnd : NoDup [normalize url]) by apply NoDup_singleton.
  assert (Hseen : ∀ u, u ∈ [normalize url] → u ∈ ({[normalize url]} : gset string))
    by set_solver.
  destruct (deep_crawl_strategy config) as [strategy|]; intros Hrun.
  - destruct (bfs_ok _ _ _ _ _ _ _ _ _ Hnd Hseen Hrun) as (Hf & Hnodup & Hbf & Hrs).
    split_and!; try done.
    intros v Hv.
    destruct (Hrs v Hv) as [[Hin Hd]|(_ & Hsc & Hd & p & page & Hp)].
    + apply list_elem_of_singleton in Hin. split_and!.
      * by left.
      * lia.
      * intros _. rewrite Hin. apply host_of_normalize.
    + split_and!.
      * right. by exists p, page.
      * lia.
      * intros Hext. rewrite Hext in Hsc.
        apply in_scope_host in Hsc as [-> _]. apply host_of_normalize.
  - destruct (bfs_ok _ _ _ _ _ _ _ _ _ Hnd Hseen Hrun) as (Hf & Hnodup & Hbf & Hrs).
    split_and!; try done.
    intros v Hv.
    destruct (Hrs v Hv) as [[Hin Hd]|(_ & _ & Hd & _)]; [|lia].
    apply list_elem_of_singleton in Hin. split; [by left | done].
Qed.

Lemma spec_arun_first url config fetched rs :
  spec_arun fetch toText url config = (fetched, inr rs) →
  first_discovery_wins fetch url rs.
Proof.
  unfold spec_arun.
  assert (Hnd : NoDup [normalize url]) by apply NoDup_singleton.
  assert (Hseen : ∀ u, u ∈ [normalize url] → u ∈ ({[normalize url]} : gset string))
    by set_solver.
  assert (Hseed : ∀ i (v : Visited) d,
            [normalize url] !! i = Some (visit_url v) ∧ visit_depth v = d →
            d = 0 → i = 0 ∧ visit_url v = normalize url ∧ visit_depth v = 0).
  { intros [|i] v d [Hi Hd] ->; cbn in Hi; [|by destruct i].
    injection Hi as <-. done. }
  destruct (deep_crawl_strategy config) as [strategy|]; intros Hrun i v Hv.
  - destruct (bfs_first _ _ _ _ _ _ _ _ _ Hnd Hseen Hrun i v Hv)
      as [Hlevel|(_ & _ & Hfirst)]; [left; by eapply Hseed | by right].
  - destruct (bfs_first _ _ _ _ _ _ _ _ _ Hnd Hseen Hrun i v Hv)
      as [Hlevel|(_ & _ & Hfirst)]; [left; by eapply Hseed | by right].
Qed.

(** Whatever the outcome of the crawl, every URL it fetches has the host of
    the seed. *)
Lemma spec_arun_fetches_in_scope url max_depth :
  ∀ u, u ∈ (spec_arun fetch toText url (crawl_config max_depth)).1 →
       host_of u = host_of url.
Proof.
  intros u. unfold spec_arun, crawl_config. cbn.
  destruct (0 <? max_depth)%Z; cbn.
  - intros Hu.
    apply (bfs_fetched fetch toText (in_scope false (normalize url))) in Hu
      as [->%list_elem_of_singleton|Hsc].
    + apply host_of_normalize.
    + apply in_scope_host in Hsc as [-> _]. apply host_of_normalize.
  - destruct (fetch (normalize url)); cbn;
      intros ->%list_elem_of_singleton; apply host_of_normalize.
Qed.

(** A crawl returns a list of results whenever every URL on the seed's host
    can be fetched. *)
Lemma crawl_url_succeeds url max_depth tr :
  (∀ u, host_of u = host_of url → is_Some (fetch u)) →
  ∃ out, (@crawl_url crawler url max_depth tr).1 = inr (ResultList out).
Proof.
  intros Hfetch. rewrite crawl_url_spec. cbn [fst].
  assert (Hseed : is_Some (fetch (normalize url)))
    by (apply Hfetch, host_of_normalize).
  unfold spec_arun, crawl_config. cbn.
  destruct (0 <? max_depth)%Z; cbn.
  - destruct (bfs_succeeds fetch toText (in_scope false (normalize url))
                (Z.to_nat max_depth)) with (depth := 0) (level := [normalize url])
                (seen0 := ({[normalize url]} : gset string)) as (rs & Hrs).
    + intros u Hu. apply Hfetch.
      apply in_scope_host in Hu as [-> _]. apply host_of_normalize.
    + by intros u ->%list_elem_of_singleton.
    + rewrite Hrs. eauto.
  - destruct Hseed as [page ->]. cbn. eauto.
Qed.

(** With the crawler of the specification, a seed page that cannot be
    fetched makes the whole request fail with 500, after that one fetch. *)
Lemma seed_fetch_failure_gives_500 url max_depth tr :
  fetch (normalize url) = None →
  @crawl_url crawler url max_depth tr =
    (inl {| status_code := 500;
            detail := "Crawling failed: could not fetch " +:+ normalize url;
            headers := [] |},
     tr ++ [ArunCall url (crawl_config max_depth); FetchCall (normalize url)]).
Proof.
  intros Hfail. rewrite crawl_url_spec.
  by rewrite (spec_arun_seed_failure url _ Hfail).
Qed.

End CrawlerFacts.

(** * The claims *)

(** ** Authentication *)

Section Authentication.

Context `{F : Framework} `{C : AsyncWebCrawler}.

Lemma verify_api_key_authorizes_iff environ creds :
  (∃ key, verify_api_key environ creds = inr key) ↔
  credentials creds = default "admin" (environ !! "API_KEY").
Proof.
  unfold verify_api_key, getenv. case_bool_decide as Hne.
  - split; [intros [key Hk]; discriminate | done].
  - split; [|eauto]. intros _.
    destruct (decide (credentials creds = default "admin" (environ !! "API_KEY")))
      as [Heq|Hn]; [exact Heq | by destruct Hne].
Qed.




(** C8: the secret compared with the bearer token is read from the
    environment: it is the value of [API_KEY] when the variable is set and
    the default [admin] when it is unset; a token is authorized exactly
    when it equals this secret, and with the variable unset the token
    [admin] is let through to [crawl_url]. *)
Theorem api_key_from_environment_or_admin environ sch token :
  let secret :=
    match environ !! "API_KEY" with Some key => key | None => "admin" end in
  verify_api_key environ {| scheme := sch; credentials := token |} =
    (if bool_decide (token = secret) then inr token
     else inl {| status_code := 401; detail := "Invalid API key";
                 headers := [("WWW-Authenticate", "Bearer")] |}) ∧
  (environ !! "API_KEY" = None →
   ∀ request tr,
     crawl_endpoint environ (Some "admin") request tr =
       crawl_url (CrawlRequest.url request) (CrawlRequest.max_depth request) tr).
Proof.
  cbn zeta. split.
  - unfold verify_api_key, getenv. cbn.
    assert (Hcmp : ∀ secret : string,
      (if bool_decide (token ≠ secret)
       then inl {| status_code := 401; detail := "Invalid API key";
                   headers := [("WWW-Authenticate", "Bearer")] |}
       else inr token) =
      (if bool_decide (token = secret) then inr token
       else @inl HTTPException string
                 {| status_code := 401; detail := "Invalid API key";
                    headers := [("WWW-Authenticate", "Bearer")] |})).
    { intros secret. destruct (decide (token = secret)) as [->|Hne].
      - rewrite bool_decide_eq_false_2 by (intros H; by apply H).
        by rewrite bool_decide_eq_true_2.
      - by rewrite bool_decide_eq_true_2, bool_decide_eq_false_2. }
    destruct (environ !! "API_KEY") as [key|]; cbn; apply Hcmp.
  - intros Hunset request tr.
    assert (Hkey : getenv environ "API_KEY" "admin" = "admin")
      by (unfold getenv; by rewrite Hunset).
    rewrite <- Hkey at 1. apply crawl_endpoint_authorized. by rewrite Hkey.
Qed.

End Authentication.



(** ** Request validation and the choice of crawl *)

Section RequestHandling.

Context `{F : Framework} `{C : AsyncWebCrawler}.

Lemma CrawlRequest_validate_depth fields s u d :
  json_get "url" fields = Some (JString s) →
  HttpUrl_validate s = Some u →
  json_get "max_depth" fields = Some (JInt d) →
  CrawlRequest_validate (JObject fields) =
    Some {| CrawlRequest.url := u; CrawlRequest.max_depth := d |}.
Proof.
  intros Hurl Hvalid Hdepth. unfold CrawlRequest_validate.
  by rewrite Hurl, Hvalid, Hdepth.
Qed.

Lemma CrawlRequest_validate_default fields s u :
  json_get "url" fields = Some (JString s) →
  HttpUrl_validate s = Some u →
  json_get "max_depth" fields = None →
  CrawlRequest_validate (JObject fields) =
    Some {| CrawlRequest.url := u; CrawlRequest.max_depth := 1 |}.
Proof.
  intros Hurl Hvalid Hdepth. unfold CrawlRequest_validate.
  by rewrite Hurl, Hvalid, Hdepth.
Qed.

(** [crawl_url] looks at the depth only through the configuration. *)
Lemma crawl_url_config url d1 d2 tr :
  crawl_config d1 = crawl_config d2 → crawl_url url d1 tr = crawl_url url d2 tr.
Proof. intros Heq. by rewrite !crawl_url_run, Heq. Qed.

(** The route on a request with the configured token and a valid body. *)
Lemma post_crawl_authorized environ j request tr :
  getenv environ "API_KEY" "admin" ≠ "" →
  CrawlRequest_validate j = Some request →
  post_crawl environ
    (AuthorizationHeader "Bearer" (getenv environ "API_KEY" "admin")) (BodyJSON j) tr =
    (respond (crawl_url (CrawlRequest.url request)
                (CrawlRequest.max_depth request) tr).1,
     (crawl_url (CrawlRequest.url request) (CrawlRequest.max_depth request) tr).2).
Proof.
  intros Hkey Hvalid. unfold post_crawl, HTTPBearer_scheme.
  rewrite (bool_decide_eq_false_2 ("Bearer" = "")) by discriminate.
  rewrite (bool_decide_eq_false_2 (getenv environ "API_KEY" "admin" = "")) by done.
  cbn [orb]. rewrite (bool_decide_eq_false_2 (lower "Bearer" ≠ "bearer"))
    by (intros H; by apply H).
  rewrite authenticate_ok, Hvalid, crawl_endpoint_authorized by done.
  by destruct (crawl_url _ _ tr).
Qed.

(** C3, where the code departs from it: when the crawler does not raise
    but reports the failed fetch of the seed page in its result, with
    [success] false, [crawl_url] does not fail: [result.success] is never
    read, and the answer is the list that holds the failed result. *)
Theorem reported_fetch_failure_is_returned url max_depth tr r :
  start = None →
  close = None →
  (arun url (crawl_config max_depth)).2 = inr [r] →
  result_success r = false →
  result_read_error r = None →
  crawl_url url max_depth tr =
    (inr (ResultList [to_CrawlResult r]),
     tr ++ ArunCall url (crawl_config max_depth)
        :: (FetchCall <$> (arun url (crawl_config max_depth)).1)) ∧
  ∀ e, (crawl_url url max_depth tr).1 ≠ inl e.
Proof.
  intros Hstart Hclose Harun _ Hread.
  rewrite crawl_url_run, Hstart, Hclose, Harun. cbn [collect].
  rewrite Hread. split; [reflexivity | discriminate].
Qed.

(** X7: when the crawler raises an exception [e], on start, in [arun],
    while its results are read or on close, [crawl_url] raises
    [HTTPException] with status 500 and the detail [Crawling failed: ]
    followed by [str(e)]; it returns no result, neither a list nor a part
    of one. *)
Theorem crawler_exception_gives_500 url max_depth tr e :
  crawler_raises url (crawl_config max_depth) e →
  (∃ tr', crawl_url url max_depth tr =
            (inl {| status_code := 500;
                    detail := "Crawling failed: " +:+ str_exc e;
                    headers := [] |}, tr')) ∧
  ∀ response, (crawl_url url max_depth tr).1 ≠ inr response.
Proof.
  intros Hraise. rewrite crawl_url_run.
  destruct Hraise as [e Hstart|e Hstart Harun Hclose
                     |results e Hstart Harun Hread Hclose|e Hstart Hclose].
  - rewrite Hstart. split; [eauto | discriminate].
  - rewrite Hstart, Hclose, Harun. split; [eauto | discriminate].
  - rewrite Hstart, Hclose, Harun, Hread. split; [eauto | discriminate].
  - rewrite Hstart, Hclose. split; [eauto | discriminate].
Qed.

(** C4, as the code has it: a body whose [max_depth] is a negative
    integer passes validation unchanged, and the route, given the
    configured token, handles the request as [crawl_url] handles depth 0:
    the crawler is started and, once started, called on the seed URL with
    the configuration of a single-page crawl. *)
Theorem negative_depth_accepted_and_crawled fields s u d environ tr :
  json_get "url" fields = Some (JString s) →
  HttpUrl_validate s = Some u →
  json_get "max_depth" fields = Some (JInt d) →
  (d < 0)%Z →
  getenv environ "API_KEY" "admin" ≠ "" →
  let response :=
    post_crawl environ
      (AuthorizationHeader "Bearer" (getenv environ "API_KEY" "admin"))
      (BodyJSON (JObject fields)) tr in
  CrawlRequest_validate (JObject fields) =
    Some {| CrawlRequest.url := u; CrawlRequest.max_depth := d |} ∧
  response = (respond (crawl_url u 0 tr).1, (crawl_url u 0 tr).2) ∧
  (start = None →
   response.2 = tr ++ ArunCall u (crawl_config 0)
                   :: (FetchCall <$> (arun u (crawl_config 0)).1)).
Proof.
  intros Hurl Hvalid Hdepth Hneg Hkey. cbn zeta.
  pose proof (CrawlRequest_validate_depth _ _ _ _ Hurl Hvalid Hdepth) as Hreq.
  rewrite (post_crawl_authorized _ _ _ _ Hkey Hreq). cbn [CrawlRequest.url CrawlRequest.max_depth].
  rewrite (crawl_url_config u d 0) by (apply crawl_config_nonpositive; lia).
  split_and!; [done | done |].
  intros Hstart. by rewrite crawl_url_run, Hstart.
Qed.

(** C9: a body that supplies a valid [url] and omits [max_depth] is
    parsed into a request whose [max_depth] is 1, the declared default, and
    the route, given the configured token, handles it as [crawl_url]
    handles depth 1: the crawler, once started, is called on the seed URL
    with a breadth-first deep-crawl strategy of depth 1 that excludes
    external links. *)
Theorem omitted_max_depth_defaults_to_1 fields s u environ tr :
  json_get "url" fields = Some (JString s) →
  HttpUrl_validate s = Some u →
  json_get "max_depth" fields = None →
  getenv environ "API_KEY" "admin" ≠ "" →
  let response :=
    post_crawl environ
      (AuthorizationHeader "Bearer" (getenv environ "API_KEY" "admin"))
      (BodyJSON (JObject fields)) tr in
  CrawlRequest_validate (JObject fields) =
    Some {| CrawlRequest.url := u; CrawlRequest.max_depth := 1 |} ∧
  response = (respond (crawl_url u 1 tr).1, (crawl_url u 1 tr).2) ∧
  (start = None →
   arun_calls response.2 =
     arun_calls tr ++
     [(u, {| magic := true; cache_mode := BYPASS;
             deep_crawl_strategy :=
               Some {| BFSDeepCrawlStrategy.max_depth := 1;
                       BFSDeepCrawlStrategy.include_external := false |};
             verbose := true |})]).
Proof.
  intros Hurl Hvalid Hdepth Hkey. cbn zeta.
  pose proof (CrawlRequest_validate_default _ _ _ Hurl Hvalid Hdepth) as Hreq.
  rewrite (post_crawl_authorized _ _ _ _ Hkey Hreq). cbn [CrawlRequest.url CrawlRequest.max_depth].
  split_and!; [done | done |].
  intros Hstart. rewrite crawl_url_run, Hstart. cbn [snd].
  by rewrite arun_calls_call.
Qed.

End RequestHandling.

Section NegativeDepth.
Import Traversal.

Context `{F : Framework} `{C : AsyncWebCrawler}.


End NegativeDepth.

Lemma reported_fetch_failure_is_returned_witness :
  @start Examples.reporting_crawler = None ∧
  @close Examples.reporting_crawler = None ∧
  (∃ r, (@arun Examples.reporting_crawler "https://unreachable.example/"
           (crawl_config 0)).2 = inr [r] ∧
        @result_success Examples.reporting_crawler r = false ∧
        @result_read_error Examples.reporting_crawler r = None) ∧
  @crawl_url Examples.reporting_crawler "https://unreachable.example/" 0 [] =
    (inr (ResultList [{| CrawlResult.url := "https://unreachable.example/";
                         CrawlResult.markdown := "None" |}]),
     [ArunCall "https://unreachable.example/" (crawl_config 0);
      FetchCall "https://unreachable.example/"]).
Proof.
  assert (Hstart : @start Examples.reporting_crawler = None) by reflexivity.
  assert (Hclose : @close Examples.reporting_crawler = None) by reflexivity.
  split_and!; [exact Hstart | exact Hclose | |].
  - eexists. split_and!; reflexivity.
  - exact (proj1 (@reported_fetch_failure_is_returned Examples.reporting_crawler
                    "https://unreachable.example/" 0 [] _
                    Hstart Hclose eq_refl eq_refl eq_refl)).
Defined.

Lemma crawler_exception_gives_500_witness :
  @crawler_raises Examples.crawler "https://example.com/missing" (crawl_config 1)
    (Traversal.FetchFailure "https://example.com/missing") ∧
  ∃ tr', @crawl_url Examples.crawler "https://example.com/missing" 1 [] =
    (inl {| status_code := 500;
            detail := "Crawling failed: " +:+
                      str_exc (Traversal.FetchFailure "https://example.com/missing");
            headers := [] |}, tr').
Proof.
  assert (Hraise : @crawler_raises Examples.crawler "https://example.com/missing"
                     (crawl_config 1)
                     (Traversal.FetchFailure "https://example.com/missing")).
  { apply (@raises_in_arun Examples.crawler); [reflexivity | | reflexivity].
    vm_compute. reflexivity. }
  split; [exact Hraise|].
  exact (proj1 (@crawler_exception_gives_500 Examples.crawler
                  "https://example.com/missing" 1 [] _ Hraise)).
Defined.

(** C4, counterexample: the body [{"url": "https://example.com/a",
    "max_depth": -1}] is not rejected: the route fetches the seed page and
    answers 200 with its result. *)
Lemma negative_depth_request_fetches :
  @post_crawl Examples.framework Examples.crawler Examples.environ_unset
    (AuthorizationHeader "Bearer" "admin") (Examples.body (Some (-1)%Z)) [] =
    (Response200 (ResultList [{| CrawlResult.url := "https://example.com/a";
                                 CrawlResult.markdown := "a" |}]),
     [ArunCall "https://example.com/a" (crawl_config 0);
      FetchCall "https://example.com/a"]).
Proof. vm_compute. reflexivity. Qed.

Lemma negative_depth_accepted_and_crawled_witness :
  json_get "url" [("url", JString "https://example.com/a"); ("max_depth", JInt (-1))]
    = Some (JString "https://example.com/a") ∧
  @HttpUrl_validate Examples.framework "https://example.com/a"
    = Some "https://example.com/a" ∧
  json_get "max_depth" [("url", JString "https://example.com/a"); ("max_depth", JInt (-1))]
    = Some (JInt (-1)) ∧
  (-1 < 0)%Z ∧
  getenv Examples.environ_unset "API_KEY" "admin" ≠ "" ∧
  @CrawlRequest_validate Examples.framework
    (JObject [("url", JString "https://example.com/a"); ("max_depth", JInt (-1))])
    = Some {| CrawlRequest.url := "https://example.com/a";
              CrawlRequest.max_depth := -1 |}.
Proof.
  assert (H1 : json_get "url"
                 [("url", JString "https://example.com/a"); ("max_depth", JInt (-1))]
               = Some (JString "https://example.com/a")) by reflexivity.
  assert (H2 : @HttpUrl_validate Examples.framework "https://example.com/a"
               = Some "https://example.com/a") by (vm_compute; reflexivity).
  assert (H3 : json_get "max_depth"
                 [("url", JString "https://example.com/a"); ("max_depth", JInt (-1))]
               = Some (JInt (-1))) by reflexivity.
  assert (H4 : (-1 < 0)%Z) by lia.
  assert (H5 : getenv Examples.environ_unset "API_KEY" "admin" ≠ "")
    by (vm_compute; discriminate).
  split_and!; [exact H1 | exact H2 | exact H3 | exact H4 | exact H5 |].
  exact (proj1 (@negative_depth_accepted_and_crawled Examples.framework Examples.crawler
                  _ _ _ _ Examples.environ_unset [] H1 H2 H3 H4 H5)).
Defined.

Lemma omitted_max_depth_defaults_to_1_witness :
  json_get "url" [("url", JString "https://example.com/a")]
    = Some (JString "https://example.com/a") ∧
  @HttpUrl_validate Examples.framework "https://example.com/a"
    = Some "https://example.com/a" ∧
  json_get "max_depth" [("url", JString "https://example.com/a")] = None ∧
  getenv Examples.environ_with_key "API_KEY" "admin" ≠ "" ∧
  @CrawlRequest_validate Examples.framework
    (JObject [("url", JString "https://example.com/a")])
    = Some {| CrawlRequest.url := "https://example.com/a";
              CrawlRequest.max_depth := 1 |}.
Proof.
  assert (H1 : json_get "url" [("url", JString "https://example.com/a")]
               = Some (JString "https://example.com/a")) by reflexivity.
  assert (H2 : @HttpUrl_validate Examples.framework "https://example.com/a"
               = Some "https://example.com/a") by (vm_compute; reflexivity).
  assert (H3 : json_get "max_depth" [("url", JString "https://example.com/a")] = None)
    by reflexivity.
  assert (H4 : getenv Examples.environ_with_key "API_KEY" "admin" ≠ "")
    by (vm_compute; discriminate).
  split_and!; [exact H1 | exact H2 | exact H3 | exact H4 |].
  exact (proj1 (@omitted_max_depth_defaults_to_1 Examples.framework Examples.crawler
                  _ _ _ Examples.environ_with_key [] H1 H2 H3 H4)).
Defined.


(** ** The outcome of a crawl *)

Section Outcome.
Import Traversal UrlFacts.

Variable fetch : string → option Page.
Variable toText : string → string.

Local Abbreviation crawler := (spec_crawler fetch toText).

Lemma crawl_url_results url max_depth tr out tr' :
  @crawl_url crawler url max_depth tr = (inr (ResultList out), tr') →
  ∃ visited,
    spec_arun fetch toText url (crawl_config max_depth) = (visit_url <$> visited, inr visited) ∧
    out = @to_CrawlResult crawler <$> visited ∧
    CrawlResult.url <$> out = visit_url <$> visited ∧
    tr' = tr ++ ArunCall url (crawl_config max_depth)
             :: (FetchCall <$> (visit_url <$> visited)).
Proof.
  rewrite crawl_url_spec.
  destruct (spec_arun fetch toText url (crawl_config max_depth))
    as [fetched [e|visited]] eqn:Hrun; cbn; [discriminate|].
  intros [= <- <-]. exists visited.
  destruct (spec_arun_ok _ _ _ _ _ _ Hrun) as (-> & _).
  split_and!; try done.
  rewrite <- list_fmap_compose. reflexivity.
Qed.

(** C1, as the code has it: for [max_depth = 0] and a seed page that is
    fetched, [crawl_url] returns a list of exactly one [CrawlResult], not
    an unwrapped object; its [url] is the normalized seed URL and its
    [markdown] the text of the seed page; the seed is the only page
    fetched. *)
Theorem depth0_returns_one_element_list url page tr :
  fetch (normalize url) = Some page →
  @crawl_url crawler url 0 tr =
    (inr (ResultList [{| CrawlResult.url := normalize url;
                         CrawlResult.markdown := toText (html page) |}]),
     tr ++ [ArunCall url (crawl_config 0); FetchCall (normalize url)]).
Proof.
  intros Hfetch. rewrite crawl_url_spec.
  rewrite (spec_arun_single fetch toText url (crawl_config 0)) by reflexivity.
  rewrite Hfetch. reflexivity.
Qed.

(** C5: for [max_depth > 0] the returned sequence lists the pages the
    traversal visited, each with a depth of discovery (the seed at depth
    0, any other page one level below a returned page that links to it)
    that is at most [max_depth], and in breadth-first order: a result
    never comes before a result of smaller depth. *)
Theorem deep_crawl_breadth_first_within_depth url max_depth tr out tr' :
  (0 < max_depth)%Z →
  @crawl_url crawler url max_depth tr = (inr (ResultList out), tr') →
  ∃ visited,
    (spec_arun fetch toText url (crawl_config max_depth)).2 = inr visited ∧
    out = @to_CrawlResult crawler <$> visited ∧
    (∀ v, v ∈ visited →
       discovered fetch url visited v ∧ (Z.of_nat (visit_depth v) ≤ max_depth)%Z) ∧
    breadth_first visited.
Proof.
  intros Hpos Hrun.
  destruct (crawl_url_results _ _ _ _ _ Hrun) as (visited & Harun & -> & _ & _).
  exists visited. rewrite Harun.
  destruct (spec_arun_ok _ _ _ _ _ _ Harun) as (_ & _ & Hbf & Hrs).
  split_and!; try done.
  intros v Hv. destruct (Hrs v Hv) as (Hdisc & Hbound).
  split; [exact Hdisc|].
  unfold crawl_config in Hbound. cbn in Hbound.
  destruct (Z.ltb_spec 0 max_depth) as [_|Hle]; [|lia].
  cbn in Hbound. lia.
Qed.

(** C6: every result of a crawl has a URL whose host is the host of the
    seed URL, and so has every page fetched during the crawl: a link to
    another host, or without a host, is never enqueued and never visited.
    In particular a URL written [scheme://host...] with a host other than
    the seed's is never fetched. *)
Theorem results_stay_on_seed_host url max_depth tr out tr' :
  @crawl_url crawler url max_depth tr = (inr (ResultList out), tr') →
  (∀ r, r ∈ out → host_of (CrawlResult.url r) = host_of url) ∧
  ∃ fetched,
    tr' = tr ++ ArunCall url (crawl_config max_depth) :: (FetchCall <$> fetched) ∧
    (∀ u, u ∈ fetched → host_of u = host_of url) ∧
    (∀ link, host_of link ≠ host_of url →
       (normalize link ∉ fetched) ∧ (normalize link ∉ CrawlResult.url <$> out)) ∧
    (∀ sch host rest,
       is_scheme sch = true → all_chars host_char host = true →
       starts_path rest = true →
       host_of url ≠ Some (lower host) →
       normalize (sch +:+ "://" +:+ host +:+ rest) ∉ fetched).
Proof.
  intros Hrun.
  destruct (crawl_url_results _ _ _ _ _ Hrun) as (visited & Harun & -> & Hurls & ->).
  pose proof (spec_arun_fetches_in_scope fetch toText url max_depth) as Hscope.
  rewrite Harun in Hscope. cbn in Hscope.
  assert (Hout : ∀ link, host_of link ≠ host_of url →
                   normalize link ∉ visit_url <$> visited).
  { intros link Hne Hin. apply Hne. rewrite <- (host_of_normalize link). by apply Hscope. }
  split.
  - intros r (v & -> & Hv)%list_elem_of_fmap. cbn.
    apply Hscope. by apply list_elem_of_fmap_2.
  - exists (visit_url <$> visited). split_and!; [reflexivity | exact Hscope | |].
    + intros link Hne. rewrite Hurls. split; by apply Hout.
    + intros sch host rest Hsch Hhost Hrest Hne. apply Hout.
      rewrite host_of_url by done. congruence.
Qed.

(** C7: no URL appears twice among the results of a crawl, the URLs being
    compared as normalized strings, and no URL is fetched twice; first
    discovery wins: the seed comes first, and every other result stands
    one level below the first page of the sequence that links to it. *)
Theorem results_have_no_duplicate_url url max_depth tr out tr' :
  @crawl_url crawler url max_depth tr = (inr (ResultList out), tr') →
  NoDup (CrawlResult.url <$> out) ∧
  (∀ r, r ∈ out → normalize (CrawlResult.url r) = CrawlResult.url r) ∧
  (∃ fetched,
     tr' = tr ++ ArunCall url (crawl_config max_depth) :: (FetchCall <$> fetched) ∧
     NoDup fetched) ∧
  ∃ visited,
    (spec_arun fetch toText url (crawl_config max_depth)).2 = inr visited ∧
    out = @to_CrawlResult crawler <$> visited ∧
    first_discovery_wins fetch url visited.
Proof.
  intros Hrun.
  destruct (crawl_url_results _ _ _ _ _ Hrun) as (visited & Harun & -> & Hurls & ->).
  destruct (spec_arun_ok _ _ _ _ _ _ Harun) as (_ & Hnd & _ & Hrs).
  split_and!.
  - by rewrite Hurls.
  - intros r (v & -> & Hv)%list_elem_of_fmap. cbn.
    destruct (Hrs v Hv) as ([[-> _]|(p & page & _ & _ & _ & Hlink)] & _).
    + apply normalize_idem.
    + apply list_elem_of_fmap in Hlink as (l & -> & _). apply normalize_idem.
  - exists (visit_url <$> visited). split; [reflexivity | exact Hnd].
  - exists visited. rewrite Harun. split_and!; [done | done |].
    by eapply spec_arun_first.
Qed.

End Outcome.

(** C1, counterexample: for the seed [https://example.com] and
    [max_depth = 0] the value returned is a list, of one element, and not a
    [CrawlResult] object. *)
Lemma depth0_not_unwrapped :
  (Examples.run 0).1 =
    inr (ResultList [{| CrawlResult.url := "https://example.com";
                        CrawlResult.markdown := "home" |}]) ∧
  ¬ ∃ r, (Examples.run 0).1 = inr (OneResult r).
Proof.
  split; [vm_compute; reflexivity|].
  intros [r Hr]. vm_compute in Hr. discriminate.
Qed.

Lemma depth0_returns_one_element_list_witness :
  Examples.site (Traversal.normalize "https://example.com#top")
    = Some {| Traversal.finalUrl := "https://example.com"; Traversal.html := "home";
              Traversal.links := ["https://example.com/a"; "https://other.org/x";
                                  "https://example.com/b"; "https://example.com#top"];
              Traversal.renderedText := "home" |} ∧
  @crawl_url Examples.crawler "https://example.com#top" 0 [] =
    (inr (ResultList [{| CrawlResult.url := "https://example.com";
                         CrawlResult.markdown := "home" |}]),
     [ArunCall "https://example.com#top" (crawl_config 0);
      FetchCall "https://example.com"]).
Proof.
  assert (Hfetch : Examples.site (Traversal.normalize "https://example.com#top")
    = Some {| Traversal.finalUrl := "https://example.com"; Traversal.html := "home";
              Traversal.links := ["https://example.com/a"; "https://other.org/x";
                                  "https://example.com/b"; "https://example.com#top"];
              Traversal.renderedText := "home" |}) by (vm_compute; reflexivity).
  split; [exact Hfetch|].
  exact (depth0_returns_one_element_list Examples.site (λ h, h)
           "https://example.com#top" _ [] Hfetch).
Defined.

(** The crawl of the example site to depth 2: the seed, its two pages
    [/a] and [/b], then [/c], found on [/a]. *)
Lemma example_run_2 :
  Examples.run 2 =
    (inr (ResultList
       [{| CrawlResult.url := "https://example.com"; CrawlResult.markdown := "home" |};
        {| CrawlResult.url := "https://example.com/a"; CrawlResult.markdown := "a" |};
        {| CrawlResult.url := "https://example.com/b"; CrawlResult.markdown := "b" |};
        {| CrawlResult.url := "https://example.com/c"; CrawlResult.markdown := "c" |}]),
     [ArunCall "https://example.com" (crawl_config 2);
      FetchCall "https://example.com"; FetchCall "https://example.com/a";
      FetchCall "https://example.com/b"; FetchCall "https://example.com/c"]).
Proof. vm_compute. reflexivity. Qed.

Lemma deep_crawl_breadth_first_within_depth_witness :
  (0 < 2)%Z ∧
  ∃ out tr',
    Examples.run 2 = (inr (ResultList out), tr') ∧
    ∃ visited,
      (Traversal.spec_arun Examples.site (λ h, h) "https://example.com" (crawl_config 2)).2
        = inr visited ∧
      out = @to_CrawlResult Examples.crawler <$> visited ∧
      (∀ v, v ∈ visited →
         Traversal.discovered Examples.site "https://example.com" visited v ∧
         (Z.of_nat (Traversal.visit_depth v) ≤ 2)%Z) ∧
      Traversal.breadth_first visited.
Proof.
  assert (Hpos : (0 < 2)%Z) by lia.
  split; [exact Hpos|].
  eexists _, _. split; [exact example_run_2|].
  exact (deep_crawl_breadth_first_within_depth Examples.site (λ h, h)
           "https://example.com" 2 [] _ _ Hpos example_run_2).
Defined.

Lemma results_stay_on_seed_host_witness :
  ∃ out tr',
    Examples.run 2 = (inr (ResultList out), tr') ∧
    ∀ r, r ∈ out →
      Traversal.host_of (CrawlResult.url r) = Traversal.host_of "https://example.com".
Proof.
  eexists _, _. split; [exact example_run_2|].
  exact (proj1 (results_stay_on_seed_host Examples.site (λ h, h)
                  "https://example.com" 2 [] _ _ example_run_2)).
Defined.

Lemma results_have_no_duplicate_url_witness :
  ∃ out tr',
    Examples.run 2 = (inr (ResultList out), tr') ∧
    NoDup (CrawlResult.url <$> out).
Proof.
  eexists _, _. split; [exact example_run_2|].
  exact (proj1 (results_have_no_duplicate_url Examples.site (λ h, h)
                  "https://example.com" 2 [] _ _ example_run_2)).
Defined.


(** * Further properties of [app.py] *)

Section Endpoint.

Context `{F : Framework} `{C : AsyncWebCrawler}.

(** X1: the endpoint calls the crawler exactly when the presented token is
    not empty and equals the configured key, and the crawler starts: then
    once, with the request's URL and the configuration of its depth, and the
    URLs fetched are the crawler's own; otherwise neither a crawler call
    nor a fetch is added to the trace. *)
Theorem crawler_called_iff_authorized environ presented request tr :
  let key := getenv environ "API_KEY" "admin" in
  let authorized := bool_decide (presented = Some key ∧ key ≠ "") in
  let url := CrawlRequest.url request in
  let config := crawl_config (CrawlRequest.max_depth request) in
  let calls := (crawl_endpoint environ presented request tr).2 in
  arun_calls calls =
    arun_calls tr ++
    (if authorized
     then match start with None => [(url, config)] | Some _ => [] end
     else []) ∧
  fetch_calls calls =
    fetch_calls tr ++
    (if authorized
     then match start with None => (arun url config).1 | Some _ => [] end
     else []).
Proof.
  cbn zeta. rewrite crawl_endpoint_run.
  destruct (authenticate environ presented) as [e|key] eqn:Hauth.
  - rewrite bool_decide_eq_false_2.
    + cbn. by rewrite !app_nil_r.
    + intros [-> Hkey]. by rewrite authenticate_ok in Hauth.
  - apply authenticate_inr in Hauth as (-> & -> & Hkey).
    rewrite bool_decide_eq_true_2 by done.
    rewrite crawl_url_run. destruct start; cbn [snd].
    + by rewrite !app_nil_r.
    + by rewrite arun_calls_call, fetch_calls_call.
Qed.


(** X3: a successful answer of the endpoint is only given to the
    configured key, and it is always a list: one [CrawlResult] per result
    the crawler returned, in the crawler's order, with that result's URL
    and markdown text. *)
Theorem endpoint_success_lists_crawler_results environ presented request tr response tr' :
  crawl_endpoint environ presented request tr = (inr response, tr') →
  presented = Some (getenv environ "API_KEY" "admin") ∧
  ∃ results,
    (arun (CrawlRequest.url request)
       (crawl_config (CrawlRequest.max_depth request))).2 = inr results ∧
    response = ResultList (to_CrawlResult <$> results) ∧
    ∀ i, (to_CrawlResult <$> results) !! i =
         (λ result, {| CrawlResult.url := result_url result;
                       CrawlResult.markdown := result_markdown_str result |})
           <$> results !! i.
Proof.
  rewrite crawl_endpoint_run.
  destruct (authenticate environ presented) as [e|key] eqn:Hauth; [discriminate|].
  apply authenticate_inr in Hauth as (-> & _ & _).
  intros (_ & _ & results & Harun & -> & _)%crawl_url_success.
  split; [done|]. exists results. split_and!; try done.
  intros i. by rewrite list_lookup_fmap.
Qed.

(** X4: once [API_KEY] is set to a value that is neither empty nor
    [admin], the default token [admin] is refused with 401 before any
    crawler call, and the configured value is the token that is let
    through to [crawl_url]. *)
Theorem configured_key_replaces_default environ key request tr :
  environ !! "API_KEY" = Some key →
  key ≠ "" →
  key ≠ "admin" →
  crawl_endpoint environ (Some "admin") request tr =
    (inl {| status_code := 401; detail := "Invalid API key";
            headers := [("WWW-Authenticate", "Bearer")] |}, tr) ∧
  crawl_endpoint environ (Some key) request tr =
    crawl_url (CrawlRequest.url request) (CrawlRequest.max_depth request) tr.
Proof.
  intros Hset Hempty Hne.
  assert (Hkey : getenv environ "API_KEY" "admin" = key)
    by (unfold getenv; by rewrite Hset).
  split.
  - apply crawl_endpoint_wrong_token; [done|]. rewrite Hkey. congruence.
  - rewrite <- Hkey at 1. apply crawl_endpoint_authorized. by rewrite Hkey.
Qed.

(** X5: with [API_KEY] set to the empty string nobody is let in: whatever
    the credentials and the body, the route never answers 200 and never
    calls the crawler, because [HTTPBearer] takes an empty token for no
    token and every other token differs from the key. *)
Theorem empty_api_key_locks_everyone_out environ authorization body tr :
  environ !! "API_KEY" = Some "" →
  (∀ response, (post_crawl environ authorization body tr).1 ≠ Response200 response) ∧
  (post_crawl environ authorization body tr).2 = tr.
Proof.
  intros Hset.
  assert (Hkey : getenv environ "API_KEY" "admin" = "")
    by (unfold getenv; by rewrite Hset).
  assert (Hauth : ∀ presented, ∃ e, authenticate environ presented = inl e).
  { intros presented.
    destruct (authenticate environ presented) as [e|key] eqn:Hauth; [eauto|].
    apply authenticate_inr in Hauth as (_ & -> & Hne). by rewrite Hkey in Hne. }
  unfold post_crawl. destruct body; try (split; [discriminate | done]);
    destruct (HTTPBearer_scheme authorization) as [e|presented];
    try (split; [discriminate | done]);
    destruct (Hauth presented) as [e ->]; (split; [discriminate | done]).
Qed.

End Endpoint.

(** X6: two depths give [crawl_url] the same crawler configuration exactly
    when they are equal or both at most 0: every depth below 1 asks for
    the same single-page crawl, and distinct positive depths are never
    confused. *)
Theorem crawl_config_eq_iff d1 d2 :
  crawl_config d1 = crawl_config d2 ↔ d1 = d2 ∨ (d1 ≤ 0 ∧ d2 ≤ 0)%Z.
Proof.
  split.
  - unfold crawl_config. intros Heq.
    destruct (Z.ltb_spec 0 d1) as [H1|H1], (Z.ltb_spec 0 d2) as [H2|H2];
      try discriminate.
    + left. by injection Heq.
    + right. lia.
  - intros [->|[H1 H2]]; [done|].
    by rewrite (crawl_config_nonpositive d1), (crawl_config_nonpositive d2).
Qed.


Lemma endpoint_success_lists_crawler_results_witness :
  @crawl_endpoint Examples.framework Examples.crawler Examples.environ_with_key
    (Some "s3cret") (Examples.request 0) []
  = (inr (ResultList [{| CrawlResult.url := "https://example.com";
                         CrawlResult.markdown := "home" |}]),
     [ArunCall "https://example.com" (crawl_config 0);
      FetchCall "https://example.com"]) ∧
  Some "s3cret" = Some (getenv Examples.environ_with_key "API_KEY" "admin").
Proof.
  assert (Hrun : @crawl_endpoint Examples.framework Examples.crawler
            Examples.environ_with_key (Some "s3cret") (Examples.request 0) []
          = (inr (ResultList [{| CrawlResult.url := "https://example.com";
                                 CrawlResult.markdown := "home" |}]),
             [ArunCall "https://example.com" (crawl_config 0);
              FetchCall "https://example.com"]))
    by (vm_compute; reflexivity).
  split; [exact Hrun|].
  exact (proj1 (@endpoint_success_lists_crawler_results Examples.framework
                  Examples.crawler _ _ _ _ _ _ Hrun)).
Defined.

Lemma configured_key_replaces_default_witness :
  Examples.environ_with_key !! "API_KEY" = Some "s3cret" ∧
  "s3cret" ≠ "" ∧
  "s3cret" ≠ "admin" ∧
  @crawl_endpoint Examples.framework Examples.crawler Examples.environ_with_key
    (Some "admin") (Examples.request 1) []
  = (inl {| status_code := 401; detail := "Invalid API key";
            headers := [("WWW-Authenticate", "Bearer")] |}, []).
Proof.
  assert (Hset : Examples.environ_with_key !! "API_KEY" = Some "s3cret")
    by (vm_compute; reflexivity).
  assert (Hempty : "s3cret" ≠ "") by discriminate.
  assert (Hne : "s3cret" ≠ "admin") by discriminate.
  split_and!; [exact Hset | exact Hempty | exact Hne |].
  exact (proj1 (@configured_key_replaces_default Examples.framework
                  Examples.crawler Examples.environ_with_key "s3cret"
                  (Examples.request 1) [] Hset Hempty Hne)).
Defined.

Lemma empty_api_key_locks_everyone_out_witness :
  Examples.environ_empty_key !! "API_KEY" = Some "" ∧
  (@post_crawl Examples.framework Examples.crawler Examples.environ_empty_key
     (AuthorizationHeader "Bearer" "") (Examples.body (Some 1%Z)) []).2 = [].
Proof.
  assert (Hset : Examples.environ_empty_key !! "API_KEY" = Some "")
    by (vm_compute; reflexivity).
  split; [exact Hset|].
  exact (proj2 (@empty_api_key_locks_everyone_out Examples.framework Examples.crawler
                  Examples.environ_empty_key (AuthorizationHeader "Bearer" "")
                  (Examples.body (Some 1%Z)) [] Hset)).
Defined.
